(** * The coin ledger of edurank-glow: [deduct_user_coins] and [add_user_coins]

    The two PL/pgSQL functions of the Supabase setup script are embedded as
    programs over the SQL statements they execute on the two tables they
    touch, [public.profiles] (column [coins]) and [public.coin_transactions].
    A program is run in two ways: [run] executes one call on a database, and
    [step] interleaves the statements of several sessions under the row
    locks the statements take.  The declared column type (INTEGER), the
    CHECK constraint [coins_non_negative] and the foreign key of
    [coin_transactions.user_id] are checked where PostgreSQL checks them.

    Arguments are non-NULL values of their SQL types, except [p_game_id],
    whose declared default is NULL, and [p_amount]: the functions are not
    declared STRICT, and [deduct_user_coins_null] and [add_user_coins_null]
    are what they do when [p_amount] is NULL.  The generated columns
    [coin_transactions.id] and [coin_transactions.timestamp] are not part of
    the model; the table is kept in insertion order. *)

From Stdlib Require Import ZArith Lia Ascii.
From stdpp Require Import gmap strings list fin_maps pretty.

Local Open Scope Z_scope.

(** ** SQL values *)

(** [UUID]: a 128-bit identifier. *)
Abbreviation uuid := N (only parsing).

(** [INTEGER] is PostgreSQL's four-byte signed integer. *)
Definition int4_min : Z := -2147483648.
Definition int4_max : Z := 2147483647.

Definition is_int4 (z : Z) : Prop := int4_min <= z <= int4_max.

Global Instance is_int4_dec z : Decision (is_int4 z).
Proof. unfold is_int4. apply _. Defined.

(** [JSONB] values, as far as [jsonb_build_object] produces them here. *)
#[warnings="-register-all"]
Inductive jsonb : Type :=
| JNull
| JNum (n : Z)
| JStr (s : string)
| JObj (fields : list (string * jsonb)).

Definition jsonb_build_object (fields : list (string * jsonb)) : jsonb :=
  JObj fields.

(** A TEXT argument that may be NULL becomes a JSON string or JSON null. *)
Definition to_jsonb_text (t : option string) : jsonb :=
  match t with
  | Some s => JStr s
  | None => JNull
  end.

Fixpoint assoc (k : string) (fields : list (string * jsonb)) : option jsonb :=
  match fields with
  | [] => None
  | (k', v) :: rest => if decide (k = k') then Some v else assoc k rest
  end.

(** The [->] operator of JSONB on an object. *)
Definition jsonb_get (j : jsonb) (k : string) : option jsonb :=
  match j with
  | JObj fields => assoc k fields
  | _ => None
  end.

Definition jsonb_int (j : option jsonb) : option Z :=
  match j with
  | Some (JNum n) => Some n
  | _ => None
  end.

(** ** Errors *)

(** What aborts a function call: a [RAISE EXCEPTION] of the function body,
    with its format string and the values of its [%] placeholders, or an
    error of the engine. *)
Inductive pg_error : Type :=
| raise_exception (format : string) (params : list Z)
| integer_out_of_range
| check_violation (constraint_name : string)
| foreign_key_violation (constraint_name : string)
| not_null_violation (column_name : string).

(** The text of a [RAISE EXCEPTION]: each [%] of the format is replaced by
    the next value. *)
Fixpoint format_message (format : string) (params : list Z) : string :=
  match format with
  | EmptyString => EmptyString
  | String c rest =>
      if decide (c = "%"%char) then
        match params with
        | p :: ps => pretty p +:+ format_message rest ps
        | [] => String c (format_message rest [])
        end
      else String c (format_message rest params)
  end.

(** ** Tables *)

(** A row of [public.coin_transactions]. *)
Record coin_transaction : Type := {
  user_id : uuid;
  action : string;
  details : jsonb
}.

(** The database: [profiles] maps the [id] of each row to its [coins]
    (declared [INTEGER DEFAULT 0 NOT NULL]). *)
Record db : Type := {
  profiles : gmap N Z;
  coin_transactions : list coin_transaction
}.

(** What a statement writes. *)
Inductive effect : Type :=
| set_coins (id : uuid) (v : Z)
| append_transaction (t : coin_transaction).

Definition apply_effect (d : db) (w : effect) : db :=
  match w with
  | set_coins id v =>
      {| profiles := <[id := v]> (profiles d);
         coin_transactions := coin_transactions d |}
  | append_transaction t =>
      {| profiles := profiles d;
         coin_transactions := coin_transactions d ++ [t] |}
  end.

Definition apply_effects (ws : list effect) (d : db) : db :=
  foldl apply_effect d ws.

(** ** The SQL statements of the two functions *)

Inductive stmt : Type -> Type :=
| select_coins_for_update (p_user_id : uuid) : stmt (option Z)
    (* SELECT coins INTO v FROM public.profiles WHERE id = p_user_id
       FOR UPDATE *)
| update_set_coins (p_user_id : uuid) (v : Z) : stmt unit
    (* UPDATE public.profiles SET coins = v WHERE id = p_user_id *)
| update_add_coins (p_user_id : uuid) (p_amount : Z) : stmt (option Z)
    (* UPDATE public.profiles SET coins = coins + p_amount
       WHERE id = p_user_id RETURNING coins INTO v *)
| insert_coin_transaction (t : coin_transaction) : stmt unit
    (* INSERT INTO public.coin_transactions (user_id, action, details)
       VALUES (...) *)
| update_set_coins_null (p_user_id : uuid) : stmt unit
    (* UPDATE public.profiles SET coins = v WHERE id = p_user_id
       with v NULL *)
| update_add_coins_null (p_user_id : uuid) : stmt (option Z).
    (* UPDATE public.profiles SET coins = coins + p_amount
       WHERE id = p_user_id RETURNING coins INTO v
       with p_amount NULL *)

(** Writing [coins] of an existing row checks [coins_non_negative]. *)
Definition write_coins {X} (id : uuid) (v : Z) (x : X)
  : pg_error + (X * list effect) :=
  if decide (0 <= v)
  then inr (x, [set_coins id v])
  else inl (check_violation "coins_non_negative").

(** One statement on the database the session sees: its result and what it
    writes, or the error that aborts it.  A [SELECT ... INTO] or
    [RETURNING ... INTO] that matches no row leaves the variable NULL; an
    [UPDATE] that matches no row writes nothing; INTEGER addition is
    checked, never wrapped; [coin_transactions.user_id] references
    [profiles(id)]; [coins] is declared NOT NULL, and [coins + NULL] is
    NULL. *)
Definition exec_stmt {X} (s : stmt X) (d : db) : pg_error + (X * list effect) :=
  match s in stmt X return pg_error + (X * list effect) with
  | select_coins_for_update p_user_id =>
      inr (profiles d !! p_user_id, [])
  | update_set_coins p_user_id v =>
      match profiles d !! p_user_id with
      | None => inr (tt, [])
      | Some _ => write_coins p_user_id v tt
      end
  | update_add_coins p_user_id p_amount =>
      match profiles d !! p_user_id with
      | None => inr (None, [])
      | Some coins =>
          if decide (is_int4 (coins + p_amount))
          then write_coins p_user_id (coins + p_amount)
                 (Some (coins + p_amount))
          else inl integer_out_of_range
      end
  | insert_coin_transaction t =>
      match profiles d !! user_id t with
      | None => inl (foreign_key_violation "coin_transactions_user_id_fkey")
      | Some _ => inr (tt, [append_transaction t])
      end
  | update_set_coins_null p_user_id =>
      match profiles d !! p_user_id with
      | None => inr (tt, [])
      | Some _ => inl (not_null_violation "coins")
      end
  | update_add_coins_null p_user_id =>
      match profiles d !! p_user_id with
      | None => inr (None, [])
      | Some _ => inl (not_null_violation "coins")
      end
  end.

(** ** PL/pgSQL bodies *)

(** A body returns, raises, or executes a statement and goes on with its
    result. *)
Inductive plpgsql (A : Type) : Type :=
| Return (a : A)
| Raise (e : pg_error)
| Exec {X : Type} (s : stmt X) (k : X -> plpgsql A).

Arguments Return {A} a.
Arguments Raise {A} e.
Arguments Exec {A X} s k.

Fixpoint pg_bind {A B} (m : plpgsql A) (f : A -> plpgsql B) : plpgsql B :=
  match m with
  | Return a => f a
  | Raise e => Raise e
  | Exec s k => Exec s (fun x => pg_bind (k x) f)
  end.

Definition sql {X} (s : stmt X) : plpgsql X := Exec s Return.

Declare Scope plpgsql_scope.
Delimit Scope plpgsql_scope with pg.
Notation "x <- m ;; k" := (pg_bind m (fun x => k))
  (at level 100, m at next level, k at level 200,
   right associativity) : plpgsql_scope.
Notation "m ;; k" := (pg_bind m (fun _ => k))
  (at level 100, k at level 200, right associativity) : plpgsql_scope.

(** [IF cond THEN RAISE EXCEPTION ...; END IF;] *)
Definition raise_if (cond : bool) (e : pg_error) : plpgsql unit :=
  if cond then Raise e else Return tt.

(** INTEGER subtraction of an assignment [v := a - b]: checked, never
    wrapped. *)
Definition int4mi (a b : Z) : plpgsql Z :=
  if decide (is_int4 (a - b)) then Return (a - b)
  else Raise integer_out_of_range.

(** ** [public.deduct_user_coins] (the SQL setup file) *)

Definition deduct_user_coins (p_user_id : uuid) (p_amount : Z)
    (p_reason : string) (p_game_id : option string) : plpgsql Z :=
  (raise_if (bool_decide (p_amount <= 0))
     (raise_exception "Amount must be positive" []) ;;
   v_current_coins <- sql (select_coins_for_update p_user_id) ;;
   match v_current_coins with
   | None => Raise (raise_exception "User not found" [])
   | Some v_current_coins =>
       raise_if (bool_decide (v_current_coins < p_amount))
         (raise_exception "Insufficient coins. Have: %, Need: %"
            [v_current_coins; p_amount]) ;;
       v_new_coins <- int4mi v_current_coins p_amount ;;
       sql (update_set_coins p_user_id v_new_coins) ;;
       sql (insert_coin_transaction
         {| user_id := p_user_id;
            action := "coin_deduction";
            details := jsonb_build_object
              [("amount", JNum p_amount);
               ("reason", JStr p_reason);
               ("game_id", to_jsonb_text p_game_id);
               ("new_balance", JNum v_new_coins)] |}) ;;
       Return v_new_coins
   end)%pg.

(** ** [public.deduct_user_coins] as the setup script [execute-setup.js]
    installs it: the same body, but the insufficient-coins exception has no
    placeholders. *)
Definition deduct_user_coins_setup (p_user_id : uuid) (p_amount : Z)
    (p_reason : string) (p_game_id : option string) : plpgsql Z :=
  (raise_if (bool_decide (p_amount <= 0))
     (raise_exception "Amount must be positive" []) ;;
   v_current_coins <- sql (select_coins_for_update p_user_id) ;;
   match v_current_coins with
   | None => Raise (raise_exception "User not found" [])
   | Some v_current_coins =>
       raise_if (bool_decide (v_current_coins < p_amount))
         (raise_exception "Insufficient coins" []) ;;
       v_new_coins <- int4mi v_current_coins p_amount ;;
       sql (update_set_coins p_user_id v_new_coins) ;;
       sql (insert_coin_transaction
         {| user_id := p_user_id;
            action := "coin_deduction";
            details := jsonb_build_object
              [("amount", JNum p_amount);
               ("reason", JStr p_reason);
               ("game_id", to_jsonb_text p_game_id);
               ("new_balance", JNum v_new_coins)] |}) ;;
       Return v_new_coins
   end)%pg.

(** ** [public.add_user_coins] *)

Definition add_user_coins (p_user_id : uuid) (p_amount : Z)
    (p_reason : string) : plpgsql Z :=
  (raise_if (bool_decide (p_amount <= 0))
     (raise_exception "Amount must be positive" []) ;;
   v_new_coins <- sql (update_add_coins p_user_id p_amount) ;;
   match v_new_coins with
   | None => Raise (raise_exception "User not found" [])
   | Some v_new_coins =>
       sql (insert_coin_transaction
         {| user_id := p_user_id;
            action := "coin_addition";
            details := jsonb_build_object
              [("amount", JNum p_amount);
               ("reason", JStr p_reason);
               ("new_balance", JNum v_new_coins)] |}) ;;
       Return v_new_coins
   end)%pg.

(** ** A NULL amount

    Neither function is declared STRICT, so a call whose [p_amount] is NULL
    runs the body.  A comparison with NULL is NULL, and an [IF] whose
    condition is NULL is not taken; arithmetic on NULL is NULL, and
    [jsonb_build_object] turns NULL into the JSON null. *)

(** [deduct_user_coins] with [p_amount] NULL: [p_amount <= 0] is NULL, so
    the first [IF] is not taken; [v_current_coins < p_amount] is NULL, so
    the third is not taken either; [v_new_coins], which is
    [v_current_coins - p_amount], is NULL. *)
Definition deduct_user_coins_null (p_user_id : uuid) (p_reason : string)
    (p_game_id : option string) : plpgsql (option Z) :=
  (v_current_coins <- sql (select_coins_for_update p_user_id) ;;
   match v_current_coins with
   | None => Raise (raise_exception "User not found" [])
   | Some v_current_coins =>
       sql (update_set_coins_null p_user_id) ;;
       sql (insert_coin_transaction
         {| user_id := p_user_id;
            action := "coin_deduction";
            details := jsonb_build_object
              [("amount", JNull);
               ("reason", JStr p_reason);
               ("game_id", to_jsonb_text p_game_id);
               ("new_balance", JNull)] |}) ;;
       Return None
   end)%pg.

(** [add_user_coins] with [p_amount] NULL: [p_amount <= 0] is NULL, so the
    first [IF] is not taken, and the [UPDATE] sets [coins] to
    [coins + p_amount], which is NULL. *)
Definition add_user_coins_null (p_user_id : uuid) (p_reason : string)
  : plpgsql (option Z) :=
  (v_new_coins <- sql (update_add_coins_null p_user_id) ;;
   match v_new_coins with
   | None => Raise (raise_exception "User not found" [])
   | Some v_new_coins =>
       sql (insert_coin_transaction
         {| user_id := p_user_id;
            action := "coin_addition";
            details := jsonb_build_object
              [("amount", JNull);
               ("reason", JStr p_reason);
               ("new_balance", JNum v_new_coins)] |}) ;;
       Return (Some v_new_coins)
   end)%pg.

(** The declared defaults of [p_reason] and [p_game_id]. *)
Definition default_deduct_reason : string := "game_unlock".
Definition default_game_id : option string := None.
Definition default_add_reason : string := "reward".

(** ** One call on a database *)

(** [run] executes a body statement by statement; the database it returns
    is the one the body has reached, also when it raises, so that what a
    raising body had already written stays visible to the theorems. *)
Fixpoint run {A} (p : plpgsql A) (d : db) : (pg_error + A) * db :=
  match p with
  | Return a => (inr a, d)
  | Raise e => (inl e, d)
  | Exec s k =>
      match exec_stmt s d with
      | inl e => (inl e, d)
      | inr (x, ws) => run (k x) (apply_effects ws d)
      end
  end.

(** A call is one transaction: when the body raises, what it wrote is
    rolled back. *)
Definition call {A} (p : plpgsql A) (d : db) : (pg_error + A) * db :=
  match run p d with
  | (inl e, _) => (inl e, d)
  | (inr a, d') => (inr a, d')
  end.

(** ** The ledger the specification speaks of *)

(** [debit] and [credit] are calls of the two functions. *)
Definition debit (account : uuid) (amount : Z) (reason : string)
    (related_resource : option string) (d : db) : (pg_error + Z) * db :=
  call (deduct_user_coins account amount reason related_resource) d.

Definition credit (account : uuid) (amount : Z) (reason : string) (d : db)
  : (pg_error + Z) * db :=
  call (add_user_coins account amount reason) d.

(** The error kinds of the specification, read off the exception text. *)
Inductive ledger_error : Type :=
| InvalidAmount
| AccountNotFound
| InsufficientBalance
| OtherError.

Definition error_kind (e : pg_error) : ledger_error :=
  match e with
  | raise_exception format _ =>
      if decide (format = "Amount must be positive") then InvalidAmount
      else if decide (format = "User not found") then AccountNotFound
      else if String.prefix "Insufficient coins" format
           then InsufficientBalance
      else OtherError
  | _ => OtherError
  end.

Definition fails_with (r : pg_error + Z) (k : ledger_error) : Prop :=
  exists e, r = inl e /\ error_kind e = k.

Definition succeeds (r : pg_error + Z) : Prop := exists v, r = inr v.

(** An error carries a value when it is among the values of its
    placeholders. *)
Definition carries (e : pg_error) (z : Z) : Prop :=
  match e with
  | raise_exception _ params => z ∈ params
  | _ => False
  end.

(** A row of [coin_transactions] read as a ledger entry. *)
Inductive entry_kind : Type := kind_credit | kind_debit.

Definition kind_of (t : coin_transaction) : option entry_kind :=
  if decide (action t = "coin_addition") then Some kind_credit
  else if decide (action t = "coin_deduction") then Some kind_debit
  else None.

Definition amount_of (t : coin_transaction) : option Z :=
  jsonb_int (jsonb_get (details t) "amount").

Definition resulting_balance_of (t : coin_transaction) : option Z :=
  jsonb_int (jsonb_get (details t) "new_balance").

(** The rows the two functions insert. *)
Definition deduction_row (p_user_id : uuid) (p_amount : Z) (p_reason : string)
    (p_game_id : option string) (v_new_coins : Z) : coin_transaction :=
  {| user_id := p_user_id;
     action := "coin_deduction";
     details := JObj [("amount", JNum p_amount);
                      ("reason", JStr p_reason);
                      ("game_id", to_jsonb_text p_game_id);
                      ("new_balance", JNum v_new_coins)] |}.

Definition addition_row (p_user_id : uuid) (p_amount : Z) (p_reason : string)
    (v_new_coins : Z) : coin_transaction :=
  {| user_id := p_user_id;
     action := "coin_addition";
     details := JObj [("amount", JNum p_amount);
                      ("reason", JStr p_reason);
                      ("new_balance", JNum v_new_coins)] |}.

(** The database after a balance change and its log row. *)
Definition posted (id : uuid) (v : Z) (t : coin_transaction) (d : db) : db :=
  {| profiles := <[id := v]> (profiles d);
     coin_transactions := coin_transactions d ++ [t] |}.

(** Sequences of calls. *)
Inductive ledger_call : Type :=
| Debit (account : uuid) (amount : Z) (reason : string)
    (related_resource : option string)
| Credit (account : uuid) (amount : Z) (reason : string).

Definition body (c : ledger_call) : plpgsql Z :=
  match c with
  | Debit u a r g => deduct_user_coins u a r g
  | Credit u a r => add_user_coins u a r
  end.

Definition exec (c : ledger_call) (d : db) : (pg_error + Z) * db :=
  match c with
  | Debit u a r g => debit u a r g d
  | Credit u a r => credit u a r d
  end.

(** The databases after each call of a sequence, in order. *)
Fixpoint states (calls : list ledger_call) (d : db) : list db :=
  match calls with
  | [] => []
  | c :: rest => let d' := (exec c d).2 in d' :: states rest d'
  end.

Definition run_calls (calls : list ledger_call) (d : db) : db :=
  foldl (fun d c => (exec c d).2) d calls.

(** The CHECK constraint, and the column type with it. *)
Definition non_negative (d : db) : Prop :=
  map_Forall (fun _ coins => 0 <= coins) (profiles d).

Definition well_typed (d : db) : Prop :=
  map_Forall (fun _ coins => 0 <= coins <= int4_max) (profiles d).

(** Replaying a log from a balance: [credit] adds the amount, [debit]
    subtracts it. *)
Definition replay_entry (balance : Z) (t : coin_transaction) : option Z :=
  match kind_of t, amount_of t with
  | Some kind_credit, Some a => Some (balance + a)
  | Some kind_debit, Some a => Some (balance - a)
  | _, _ => None
  end.

(** [replay balance log] is the balance after the log when every entry
    records the balance the replay has reached with it. *)
Fixpoint replay (balance : Z) (log : list coin_transaction) : option Z :=
  match log with
  | [] => Some balance
  | t :: rest =>
      match replay_entry balance t with
      | Some b =>
          if decide (resulting_balance_of t = Some b) then replay b rest
          else None
      | None => None
      end
  end.

(** The balances a replay goes through, without looking at what the
    entries recorded. *)
Fixpoint replayed_balances (balance : Z) (log : list coin_transaction)
  : list (option Z) :=
  match log with
  | [] => []
  | t :: rest =>
      match replay_entry balance t with
      | Some b => Some b :: replayed_balances b rest
      | None => None :: replayed_balances balance rest
      end
  end.

Definition account_log (account : uuid) (d : db) : list coin_transaction :=
  filter (fun t => user_id t = account) (coin_transactions d).

(** The log of account [u], in the order in which its rows were inserted,
    replays from 0 to the balance of the account; an absent account has no
    log. *)
Definition log_consistent (u : uuid) (d : db) : Prop :=
  match profiles d !! u with
  | Some B => replay 0 (account_log u d) = Some B
  | None => account_log u d = []
  end.

(** ** Concurrent sessions

    Each session runs one call as its own transaction, statement by
    statement.  It sees the committed database with its own writes on top
    and nothing of what other sessions have written and not committed.
    [SELECT ... FOR UPDATE] and [UPDATE] take the lock of the row they
    match and wait while another session holds it, and then read the row
    as committed (the default isolation level, READ COMMITTED); the locks
    of a session are released when it commits or rolls back. *)

Inductive session : Type :=
| running (p : plpgsql Z) (writes : list effect)
| finished (r : pg_error + Z).

Record cluster : Type := {
  committed : db;
  row_locks : gmap N nat;
  sessions : list session
}.

(** The row of [profiles] a statement addresses. *)
Definition locked_row {X} (s : stmt X) : option uuid :=
  match s with
  | select_coins_for_update p_user_id => Some p_user_id
  | update_set_coins p_user_id _ => Some p_user_id
  | update_add_coins p_user_id _ => Some p_user_id
  | insert_coin_transaction _ => None
  | update_set_coins_null p_user_id => Some p_user_id
  | update_add_coins_null p_user_id => Some p_user_id
  end.

(** The locks after session [i] has been granted what statement [s] needs
    on the database it sees, or [None] while it has to wait. *)
Definition acquire {X} (i : nat) (s : stmt X) (view : db)
    (locks : gmap N nat) : option (gmap N nat) :=
  match locked_row s with
  | None => Some locks
  | Some id =>
      match profiles view !! id with
      | None => Some locks
      | Some _ =>
          match locks !! id with
          | None => Some (<[id := i]> locks)
          | Some j => if decide (j = i) then Some locks else None
          end
      end
  end.

Definition release (i : nat) (locks : gmap N nat) : gmap N nat :=
  filter (fun kv => kv.2 <> i) locks.

(** Session [i] ends with result [r], leaving [d] as the committed
    database. *)
Definition finish (i : nat) (r : pg_error + Z) (d : db) (c : cluster)
  : cluster :=
  {| committed := d;
     row_locks := release i (row_locks c);
     sessions := <[i := finished r]> (sessions c) |}.

(** One step of session [i]: it commits at [Return], rolls back at [Raise]
    or when its statement fails, and otherwise executes its next statement;
    [None] when it waits for a lock, has finished or does not exist. *)
Definition step (i : nat) (c : cluster) : option cluster :=
  match sessions c !! i with
  | Some (running p ws) =>
      match p with
      | Return v =>
          Some (finish i (inr v) (apply_effects ws (committed c)) c)
      | Raise e => Some (finish i (inl e) (committed c) c)
      | Exec s k =>
          let view := apply_effects ws (committed c) in
          match acquire i s view (row_locks c) with
          | None => None
          | Some locks =>
              match exec_stmt s view with
              | inl e => Some (finish i (inl e) (committed c) c)
              | inr (x, ws') =>
                  Some {| committed := committed c;
                          row_locks := locks;
                          sessions :=
                            <[i := running (k x) (ws ++ ws')]> (sessions c) |}
              end
          end
      end
  | _ => None
  end.

(** A schedule names the session that is given the next step; a session
    that cannot step leaves the cluster as it is. *)
Fixpoint run_schedule (schedule : list nat) (c : cluster) : cluster :=
  match schedule with
  | [] => c
  | i :: rest => run_schedule rest (default c (step i c))
  end.

Definition start (d : db) (bodies : list (plpgsql Z)) : cluster :=
  {| committed := d;
     row_locks := ∅;
     sessions := map (fun p => running p []) bodies |}.

Definition is_finished (s : session) : bool :=
  match s with finished _ => true | running _ _ => false end.

Definition is_success (s : session) : bool :=
  match s with finished (inr _) => true | _ => false end.

Definition is_failure (s : session) : bool :=
  match s with finished (inl _) => true | _ => false end.

Definition all_finished (c : cluster) : Prop :=
  Forall (fun s => is_finished s = true) (sessions c).

Definition successes (c : cluster) : nat :=
  length (filter (fun s => is_success s = true) (sessions c)).

Definition failures (c : cluster) : nat :=
  length (filter (fun s => is_failure s = true) (sessions c)).

(** [N] debits of the same amount on one account, each with its own reason
    and related resource. *)
Definition debits (account : uuid) (amount : Z)
    (args : list (string * option string)) : list (plpgsql Z) :=
  map (fun rg => deduct_user_coins account amount rg.1 rg.2) args.

(** A body that asks for no other row lock than that of [id]. *)
Fixpoint locks_only (id : uuid) (p : plpgsql Z) : Prop :=
  match p with
  | Return _ | Raise _ => True
  | Exec s k =>
      (locked_row s = None \/ locked_row s = Some id)
      /\ forall x, locks_only id (k x)
  end.

(** A body that ends within [m] statements. *)
Fixpoint ends_within (m : nat) (p : plpgsql Z) : Prop :=
  match p with
  | Return _ | Raise _ => True
  | Exec s k =>
      match m with
      | O => False
      | S m' => forall x, ends_within m' (k x)
      end
  end.

Definition insufficient_coins (have need : Z) : pg_error :=
  raise_exception "Insufficient coins. Have: %, Need: %" [have; need].

(** The balance after [k] debits of [n] from [B]. *)
Definition balance_after (B n : Z) (k : nat) : Z := B - n * Z.of_nat k.

(** What holds of a cluster of debits of [n] on account [u], started on
    [d0] with balance [B], at every point of every schedule: the committed
    database is the one after as many debits as have succeeded; at most one
    session is past its [SELECT ... FOR UPDATE], and what is left of it
    yields what its whole body yields on the committed database. *)
Record debits_inv (u : uuid) (B n : Z) (d0 : db)
    (args : list (string * option string)) (c : cluster) : Prop := {
  inv_length : length (sessions c) = length args;
  inv_locks :
    row_locks c = ∅
    \/ exists i p ws,
         row_locks c = {[ u := i ]}
         /\ sessions c !! i = Some (running p ws);
  inv_sessions : forall i p ws,
    sessions c !! i = Some (running p ws) ->
    exists r g,
      args !! i = Some (r, g)
      /\ locks_only u p
      /\ ends_within 3 p
      /\ run p (apply_effects ws (committed c))
         = run (deduct_user_coins u n r g) (committed c)
      /\ (row_locks c !! u = Some i
          \/ (p = deduct_user_coins u n r g /\ ws = []));
  inv_profiles :
    profiles (committed c)
    = <[u := balance_after B n (successes c)]> (profiles d0);
  inv_non_negative : 0 <= balance_after B n (successes c);
  inv_failed : forall i e,
    sessions c !! i = Some (finished (inl e)) ->
    exists b, e = insufficient_coins b n /\ b < n;
  inv_short :
    (0 < failures c)%nat -> balance_after B n (successes c) < n;
  inv_log : exists rows,
    coin_transactions (committed c) = coin_transactions d0 ++ rows
    /\ map resulting_balance_of rows
       = map (fun k => Some (balance_after B n k)) (seq 1 (successes c))
    /\ Forall (fun t => user_id t = u /\ kind_of t = Some kind_debit
                        /\ amount_of t = Some n) rows
}.

Arguments inv_length {u B n d0 args} c _.
Arguments inv_locks {u B n d0 args} c _.
Arguments inv_sessions {u B n d0 args} c _.
Arguments inv_profiles {u B n d0 args} c _.
Arguments inv_non_negative {u B n d0 args} c _.
Arguments inv_failed {u B n d0 args} c _.
Arguments inv_short {u B n d0 args} c _.
Arguments inv_log {u B n d0 args} c _.

(** ** The databases of the examples *)

Definition acct : uuid := 7%N.

(** An identifier without a row in [profiles]. *)
Definition ghost : uuid := 9%N.

Definition db0 : db :=
  {| profiles := {[ acct := 0 ]}; coin_transactions := [] |}.

Definition db500 : db :=
  {| profiles := {[ acct := 500 ]}; coin_transactions := [] |}.

(** The largest INTEGER as a balance. *)
Definition db_full : db :=
  {| profiles := {[ acct := 2147483647 ]}; coin_transactions := [] |}.

Definition db10 : db :=
  {| profiles := {[ acct := 10 ]}; coin_transactions := [] |}.

(** A second account, which starts with 30 coins and no row in the log. *)
Definition other : uuid := 11%N.

Definition db0_other : db :=
  {| profiles := {[ acct := 0; other := 30 ]}; coin_transactions := [] |}.

(** ** More vocabulary for calls and logs *)

(** The account a call is about. *)
Definition account_of (c : ledger_call) : uuid :=
  match c with
  | Debit u _ _ _ => u
  | Credit u _ _ => u
  end.

(** The results of the calls of a sequence, in order. *)
Fixpoint results (calls : list ledger_call) (d : db) : list (pg_error + Z) :=
  match calls with
  | [] => []
  | c :: rest => (exec c d).1 :: results rest (exec c d).2
  end.

Definition is_inr {A B} (r : A + B) : bool :=
  match r with inr _ => true | inl _ => false end.

(** What a log adds to a balance: the amounts of its credits less the
    amounts of its debits. *)
Definition signed_amount (t : coin_transaction) : Z :=
  match kind_of t, amount_of t with
  | Some kind_credit, Some a => a
  | Some kind_debit, Some a => - a
  | _, _ => 0
  end.

Definition net_change (rows : list coin_transaction) : Z :=
  foldr (fun t s => signed_amount t + s) 0 rows.

(** A log row as the two functions write it: of an existing account, a
    credit or a debit of a positive amount, with a resulting balance that
    is a non-negative INTEGER. *)
Definition row_ok (d : db) (t : coin_transaction) : Prop :=
  is_Some (profiles d !! user_id t)
  /\ is_Some (kind_of t)
  /\ (exists a, amount_of t = Some a /\ 0 < a)
  /\ (exists b, resulting_balance_of t = Some b /\ 0 <= b <= int4_max).

(** What a call returns and, when it succeeds, the balance and the row it
    writes, given the coins of its account ([None]: no such row). *)
Definition call_outcome (c : ledger_call) (coins : option Z)
  : (pg_error + Z) * option (Z * coin_transaction) :=
  match c with
  | Debit u a r g =>
      if bool_decide (a <= 0)
      then (inl (raise_exception "Amount must be positive" []), None)
      else match coins with
           | None => (inl (raise_exception "User not found" []), None)
           | Some b =>
               if bool_decide (b < a)
               then (inl (insufficient_coins b a), None)
               else if decide (is_int4 (b - a))
               then (inr (b - a), Some (b - a, deduction_row u a r g (b - a)))
               else (inl integer_out_of_range, None)
           end
  | Credit u a r =>
      if bool_decide (a <= 0)
      then (inl (raise_exception "Amount must be positive" []), None)
      else match coins with
           | None => (inl (raise_exception "User not found" []), None)
           | Some b =>
               if decide (is_int4 (b + a))
               then if decide (0 <= b + a)
                    then (inr (b + a), Some (b + a, addition_row u a r (b + a)))
                    else (inl (check_violation "coins_non_negative"), None)
               else (inl integer_out_of_range, None)
           end
  end.

Definition write_outcome (u : uuid) (w : option (Z * coin_transaction))
    (d : db) : db :=
  match w with
  | None => d
  | Some (v, t) => posted u v t d
  end.

(** Two results agree when both are the same balance or both are errors
    of the same kind. *)
Definition same_outcome (r1 r2 : pg_error + Z) : Prop :=
  match r1, r2 with
  | inr v1, inr v2 => v1 = v2
  | inl e1, inl e2 => error_kind e1 = error_kind e2
  | _, _ => False
  end.


(** A database with two accounts. *)
Definition db_two : db :=
  {| profiles := {[ acct := 500; ghost := 20 ]};
     coin_transactions :=
       [addition_row ghost 20 "reward" 20] |}.

(** ** JavaScript strings

    A JavaScript string is a sequence of UTF-16 code units; [length],
    [substring], [trim], [split] and a regular expression without the [u]
    flag all work on code units. *)

(** The code units of an ASCII literal. *)
Definition js (s : string) : list N :=
  map N_of_ascii (String.list_ascii_of_string s).

(** WhiteSpace and LineTerminator of ECMAScript, what [trim] removes. *)
Definition is_js_whitespace (c : N) : bool :=
  ((9 <=? c) && (c <=? 13) || (c =? 32) || (c =? 160) || (c =? 5760)
   || (8192 <=? c) && (c <=? 8202) || (c =? 8232) || (c =? 8233)
   || (c =? 8239) || (c =? 8287) || (c =? 12288) || (c =? 65279))%N.

Fixpoint drop_while (f : N -> bool) (s : list N) : list N :=
  match s with
  | [] => []
  | c :: rest => if f c then drop_while f rest else s
  end.

Definition trimStart (s : list N) : list N := drop_while is_js_whitespace s.

Definition trimEnd (s : list N) : list N :=
  reverse (drop_while is_js_whitespace (reverse s)).

Definition trim (s : list N) : list N := trimEnd (trimStart s).

#[global] Arguments trim : simpl never.

(** [s.startsWith(prefix)] *)
Fixpoint startsWith (s prefix : list N) : bool :=
  match prefix, s with
  | [], _ => true
  | p :: prefix', c :: s' => (c =? p)%N && startsWith s' prefix'
  | _ :: _, [] => false
  end.

(** [s.split(sep)] for a separator of one code unit. *)
Fixpoint split (sep : N) (s : list N) : list (list N) :=
  match s with
  | [] => [[]]
  | c :: rest =>
      if (c =? sep)%N then [] :: split sep rest
      else match split sep rest with
           | chunk :: chunks => (c :: chunk) :: chunks
           | [] => [[c]]
           end
  end.

(** [regex.test(s)] for a regular expression that is one character
    class. *)
Definition test_class (class : N -> bool) (s : list N) : bool :=
  existsb class s.

(** [s.replace(/[class]/g, '')] *)
Definition remove_class (class : N -> bool) (s : list N) : list N :=
  List.filter (fun c => negb (class c)) s.

(** A JavaScript value of which only strings matter. *)
Inductive jsvalue : Type :=
| js_string (s : list N)
| js_other.

(** ** [src/utils/passwordValidator.ts] *)

Definition MIN_LENGTH : nat := 8.

(** [/[A-Z]/], [/[a-z]/], [/[0-9]/] *)
Definition UPPERCASE (c : N) : bool := ((65 <=? c) && (c <=? 90))%N.
Definition LOWERCASE (c : N) : bool := ((97 <=? c) && (c <=? 122))%N.
Definition NUMBER (c : N) : bool := ((48 <=? c) && (c <=? 57))%N.

(** The characters of the class of [SPECIAL], in the order of the source:
    ! @ # $ % ^ & * ( ) _ + - = [ ] { } ; ' : (double quote) (backslash)
    | , . > < / ? *)
Definition SPECIAL_chars : list N :=
  [33; 64; 35; 36; 37; 94; 38; 42; 40; 41; 95; 43; 45; 61; 91; 93; 123; 125;
   59; 39; 58; 34; 92; 124; 44; 46; 62; 60; 47; 63]%N.

Definition SPECIAL (c : N) : bool := existsb (N.eqb c) SPECIAL_chars.

Record PasswordStrength : Type := {
  score : nat;
  label : string;
  color : string;
  feedback : list string
}.

(** One check of [validateStrength]: [score++] or [feedback.push(msg)]. *)
Definition check (passed : bool) (msg : string) (acc : nat * list string)
  : nat * list string :=
  if passed then (S acc.1, acc.2) else (acc.1, acc.2 ++ [msg]).

Definition validateStrength (password : list N) : PasswordStrength :=
  match password with
  | [] =>
      {| score := 0;
         label := "No password";
         color := "bg-gray-300";
         feedback := ["Enter a password"] |}
  | _ :: _ =>
      let acc := (0%nat, []) in
      let acc := check (bool_decide (MIN_LENGTH <= length password)%nat)
                   "At least 8 characters required" acc in
      let acc := check (test_class UPPERCASE password)
                   "At least one uppercase letter required" acc in
      let acc := check (test_class LOWERCASE password)
                   "At least one lowercase letter required" acc in
      let acc := check (test_class NUMBER password)
                   "At least one number required" acc in
      let acc := check (test_class SPECIAL password)
                   "At least one special character required" acc in
      match acc.1 with
      | 0%nat | 1%nat =>
          {| score := acc.1; label := "Very Weak"; color := "bg-red-500";
             feedback := acc.2 |}
      | 2%nat =>
          {| score := acc.1; label := "Weak"; color := "bg-orange-500";
             feedback := acc.2 |}
      | 3%nat =>
          {| score := acc.1; label := "Fair"; color := "bg-yellow-500";
             feedback := acc.2 |}
      | 4%nat =>
          {| score := acc.1; label := "Good"; color := "bg-lime-500";
             feedback := acc.2 |}
      | 5%nat =>
          {| score := acc.1; label := "Strong"; color := "bg-green-500";
             feedback := [] |}
      | _ =>
          {| score := acc.1; label := ""; color := ""; feedback := acc.2 |}
      end
  end.

Definition isValid (password : list N) : bool :=
  bool_decide (MIN_LENGTH <= length password)%nat
  && test_class UPPERCASE password
  && test_class LOWERCASE password
  && test_class NUMBER password
  && test_class SPECIAL password.

Definition passwordsMatch (password confirmPassword : list N) : bool :=
  bool_decide (password = confirmPassword).

(** ** Input validation of the edge functions

    [generate-notes] (validateVideoTitle, validateVideoId, validateTodoId)
    and [generate-quiz] (validateNotes, validateTodoId). *)

Definition MAX_VIDEO_TITLE_LENGTH : nat := 500.
Definition MAX_VIDEO_ID_LENGTH : nat := 50.
Definition MAX_NOTES_LENGTH : nat := N.to_nat 10000.

(** [/[<>]/] *)
Definition angle_bracket (c : N) : bool := ((c =? 60) || (c =? 62))%N.

(** [/[\x00-\x1f]/] *)
Definition control (c : N) : bool := (c <=? 31)%N.

(** [/[\x00-\x08\x0b\x0c\x0e-\x1f]/] *)
Definition control_but_tab_newline (c : N) : bool :=
  ((c <=? 8) || (c =? 11) || (c =? 12) || (14 <=? c) && (c <=? 31))%N.

(** [/[a-zA-Z0-9_-]/] *)
Definition video_id_char (c : N) : bool :=
  ((97 <=? c) && (c <=? 122) || (65 <=? c) && (c <=? 90)
   || (48 <=? c) && (c <=? 57) || (c =? 95) || (c =? 45))%N.

(** [/[0-9a-f]/i]: without the [u] flag a character from U+0080 on never
    folds to an ASCII letter, so the class holds the digits and the
    letters a to f in both cases. *)
Definition hex_digit (c : N) : bool :=
  ((48 <=? c) && (c <=? 57) || (97 <=? c) && (c <=? 102)
   || (65 <=? c) && (c <=? 70))%N.

Definition dash (c : N) : bool := (c =? 45)%N.

(** [/^[class]+$/.test(s)] *)
Definition test_all_class (class : N -> bool) (s : list N) : bool :=
  match s with
  | [] => false
  | _ :: _ => forallb class s
  end.

(** [/^c1c2...cn$/.test(s)] for a sequence of character classes. *)
Fixpoint test_sequence (pattern : list (N -> bool)) (s : list N) : bool :=
  match pattern, s with
  | [], [] => true
  | class :: pattern', c :: s' => class c && test_sequence pattern' s'
  | _, _ => false
  end.

(** [/^[0-9a-f]{8}-[0-9a-f]{4}-[0-9a-f]{4}-[0-9a-f]{4}-[0-9a-f]{12}$/i] *)
Definition UUID_pattern : list (N -> bool) :=
  replicate 8 hex_digit ++ [dash] ++ replicate 4 hex_digit ++ [dash]
  ++ replicate 4 hex_digit ++ [dash] ++ replicate 4 hex_digit ++ [dash]
  ++ replicate 12 hex_digit.

Definition sanitizeText (text : list N) (maxLength : nat) : list N :=
  trim (remove_class control (remove_class angle_bracket
                                (take maxLength text))).

Definition sanitizeNotes (notes : list N) : list N :=
  trim (remove_class control_but_tab_newline (take MAX_NOTES_LENGTH notes)).

(** The object [{ valid, sanitized, error }] the validators return. *)
Record validation : Type := {
  valid : bool;
  sanitized : list N;
  error : option string
}.

(** [{ valid: false, sanitized: '', error }] *)
Definition rejected (message : string) : validation :=
  {| valid := false; sanitized := []; error := Some message |}.

(** [{ valid: true, sanitized }] *)
Definition accepted (s : list N) : validation :=
  {| valid := true; sanitized := s; error := None |}.

(** [containsInjectionPattern(trimmed)] only decides whether a warning is
    written to the console; the object returned does not depend on it. *)
Definition validateVideoTitle (title : jsvalue) : validation :=
  match title with
  | js_string ((_ :: _) as title) =>
      let trimmed := trim title in
      if bool_decide (length trimmed = 0%nat)
      then rejected "Video title cannot be empty"
      else accepted (sanitizeText trimmed MAX_VIDEO_TITLE_LENGTH)
  | _ => rejected "Video title is required"
  end.

Definition validateVideoId (videoId : jsvalue) : validation :=
  match videoId with
  | js_string ((_ :: _) as videoId) =>
      let trimmed := trim videoId in
      if bool_decide (length trimmed = 0%nat)
         || bool_decide (MAX_VIDEO_ID_LENGTH < length trimmed)%nat
      then rejected "Invalid video ID"
      else if negb (test_all_class video_id_char trimmed)
      then rejected "Invalid video ID format"
      else accepted trimmed
  | _ => rejected "Video ID is required"
  end.

Definition validateTodoId (todoId : jsvalue) : validation :=
  match todoId with
  | js_string ((_ :: _) as todoId) =>
      let trimmed := trim todoId in
      if negb (test_sequence UUID_pattern trimmed)
      then rejected "Invalid todo ID format"
      else accepted trimmed
  | _ => rejected "Todo ID is required"
  end.

(** The two warnings of [validateNotes], for notes longer than
    [MAX_NOTES_LENGTH] and for an injection pattern, go to the console
    only. *)
Definition validateNotes (notes : jsvalue) : validation :=
  match notes with
  | js_string ((_ :: _) as notes) =>
      let trimmed := trim notes in
      if bool_decide (length trimmed = 0%nat)
      then rejected "Notes cannot be empty"
      else accepted (sanitizeNotes trimmed)
  | _ => rejected "Notes are required"
  end.

(** A string that neither starts nor ends with white space. *)
Definition clean_ends (s : list N) : Prop :=
  (forall c, head s = Some c -> is_js_whitespace c = false)
  /\ (forall c, last s = Some c -> is_js_whitespace c = false).

(** ** [Sidebar]: [isActive], with [location.pathname] made a parameter *)

Definition slash : N := 47.

Definition isActive (pathname path : list N) : bool :=
  bool_decide (pathname = path) || startsWith pathname (path ++ [slash]).

(** ** [setup-database.js] *)

Definition semicolon : N := 59.

Definition sqlStatements (sqlContent : list N) : list (list N) :=
  List.filter
    (fun stmt => bool_decide (0 < length stmt)%nat
                 && negb (startsWith stmt (js "--")))
    (map trim (split semicolon sqlContent)).

(** What [await fetch(...)] gives: a response, or an exception when the
    request itself fails; [await response.text()] gives the body or throws
    in its turn. *)
Inductive fetch_body : Type :=
| body_text (text : list N)
| body_error (message : list N).

Inductive fetch_result : Type :=
| response (ok : bool) (status : N) (body : fetch_body)
| fetch_error (message : list N).

Record sql_result : Type := {
  success : bool;
  sql_error : option (list N)
}.

Section Network.

(** The server behind [fetch]: it answers the request for one SQL text and
    moves to a next state. *)
Context {world : Type}.
Variable fetch : list N -> world -> fetch_result * world.

Definition executeSql (sql : list N) (w : world) : sql_result * world :=
  let (r, w') := fetch sql w in
  match r with
  | response true _ _ => ({| success := true; sql_error := None |}, w')
  | response false status (body_text text) =>
      ({| success := false;
          sql_error := Some (js "HTTP " ++ js (pretty status) ++ js ": "
                             ++ text) |}, w')
  | response false _ (body_error message) =>
      ({| success := false; sql_error := Some message |}, w')
  | fetch_error message =>
      ({| success := false; sql_error := Some message |}, w')
  end.

(** The counters of [setupDatabase] after its loop. *)
Fixpoint setupDatabase_loop (statements : list (list N))
    (completed failed : nat) (w : world) : nat * nat * world :=
  match statements with
  | [] => (completed, failed, w)
  | sql :: rest =>
      let (result, w') := executeSql sql w in
      if success result
      then setupDatabase_loop rest (S completed) failed w'
      else setupDatabase_loop rest completed (S failed) w'
  end.

(** The exit code of the script. *)
Definition setupDatabase (sqlContent : list N) (w : world) : nat :=
  let '(completed, failed, _) :=
    setupDatabase_loop (sqlStatements sqlContent) 0 0 w in
  if bool_decide (failed = 0%nat) then 0%nat else 1%nat.

(** ** [execute-setup.js]: the loop of [executeDatabaseSetup] over the SQL
    texts of its statements *)
Fixpoint executeDatabaseSetup_loop (statements : list (list N))
    (success failed : nat) (w : world) : nat * nat * world :=
  match statements with
  | [] => (success, failed, w)
  | sql :: rest =>
      let (r, w') := fetch sql w in
      match r with
      | response true _ _ =>
          executeDatabaseSetup_loop rest (S success) failed w'
      | response false _ _ =>
          executeDatabaseSetup_loop rest (S success) failed w'
      | fetch_error _ =>
          executeDatabaseSetup_loop rest success (S failed) w'
      end
  end.

(** Whether the script ends with [All database configuration complete]. *)
Definition executeDatabaseSetup (statements : list (list N)) (w : world)
  : bool :=
  let '(_, failed, _) := executeDatabaseSetup_loop statements 0 0 w in
  bool_decide (failed = 0%nat).

(** The answers the server gives to the statements sent one after the
    other. *)
Fixpoint replies (statements : list (list N)) (w : world)
  : list fetch_result :=
  match statements with
  | [] => []
  | sql :: rest => let (r, w') := fetch sql w in r :: replies rest w'
  end.

End Network.

Definition is_ok (r : fetch_result) : bool :=
  match r with response true _ _ => true | _ => false end.

Definition is_thrown (r : fetch_result) : bool :=
  match r with fetch_error _ => true | _ => false end.

(** ** [AIQuiz]: the quiz page

    The state of the component, without [topic] and [loading], and with the
    number of calls of [addCoins] that have not returned yet. *)

Record Question : Type := {
  question : list N;
  options : list (list N);
  correctAnswer : Z;
  explanation : list N
}.

Record AIQuiz : Type := {
  questions : list Question;
  currentQuestion : nat;
  selectedAnswer : option nat;
  submitted : bool;
  answers : list nat;
  showResults : bool;
  awaiting : nat
}.

Definition useState : AIQuiz :=
  {| questions := []; currentQuestion := 0; selectedAnswer := None;
     submitted := false; answers := []; showResults := false;
     awaiting := 0 |}.

(** [answers.filter((answer, idx) => answer === questions[idx].correctAnswer)
    .length], from index [idx] on; [None] is the TypeError of
    [questions[idx].correctAnswer] for an index without question. *)
Fixpoint correctCount_from (questions : list Question) (idx : nat)
    (answers : list nat) : option nat :=
  match answers with
  | [] => Some 0%nat
  | answer :: rest =>
      match questions !! idx with
      | None => None
      | Some q =>
          match correctCount_from questions (S idx) rest with
          | None => None
          | Some n =>
              Some (if bool_decide (Z.of_nat answer = correctAnswer q)
                    then S n else n)
          end
      end
  end.

Definition correctCount (questions : list Question) (answers : list nat)
  : option nat :=
  correctCount_from questions 0 answers.

(** The [forEach] of [calculateScore], from index [idx] on, with the counter
    [correct]. *)
Fixpoint calculateScore_from (questions : list Question) (idx : nat)
    (answers : list nat) (correct : nat) : option nat :=
  match answers with
  | [] => Some correct
  | answer :: rest =>
      match questions !! idx with
      | None => None
      | Some q =>
          calculateScore_from questions (S idx) rest
            (if bool_decide (Z.of_nat answer = correctAnswer q)
             then S correct else correct)
      end
  end.

Definition calculateScore (questions : list Question) (answers : list nat)
  : option nat :=
  calculateScore_from questions 0 answers 0.

(** What the user and the runtime can do. *)
Inductive event : Type :=
| quiz_generated (generatedQuestions : list Question)
| select_answer (index : nat)
| submit_answer
| next
| addCoins_returned
| reset_quiz.

(** The state after [generateQuiz] has returned in [handleGenerateQuiz]. *)
Definition handleGenerateQuiz (generatedQuestions : list Question)
    (s : AIQuiz) : AIQuiz :=
  {| questions := generatedQuestions; currentQuestion := 0;
     selectedAnswer := None; submitted := false; answers := [];
     showResults := false; awaiting := awaiting s |}.

Definition handleSelectAnswer (index : nat) (s : AIQuiz) : AIQuiz :=
  if submitted s then s
  else {| questions := questions s; currentQuestion := currentQuestion s;
          selectedAnswer := Some index; submitted := submitted s;
          answers := answers s; showResults := showResults s;
          awaiting := awaiting s |}.

Definition handleSubmitAnswer (s : AIQuiz) : AIQuiz :=
  match selectedAnswer s with
  | None => s
  | Some selected =>
      {| questions := questions s; currentQuestion := currentQuestion s;
         selectedAnswer := selectedAnswer s; submitted := true;
         answers := answers s ++ [selected]; showResults := showResults s;
         awaiting := awaiting s |}
  end.

(** [handleNext] up to its [await]: the new state and the coins passed to
    [addCoins], if it is called. *)
Definition handleNext (s : AIQuiz) : AIQuiz * option nat :=
  if (Z.of_nat (currentQuestion s) <? Z.of_nat (length (questions s)) - 1)
  then ({| questions := questions s;
           currentQuestion := currentQuestion s + 1;
           selectedAnswer := None; submitted := false;
           answers := answers s; showResults := showResults s;
           awaiting := awaiting s |}, None)
  else match correctCount (questions s) (answers s) with
       | None => (s, None)
       | Some count =>
           let coinsEarned := (count * 10)%nat in
           ({| questions := questions s;
               currentQuestion := currentQuestion s;
               selectedAnswer := selectedAnswer s;
               submitted := submitted s; answers := answers s;
               showResults := showResults s;
               awaiting := S (awaiting s) |}, Some coinsEarned)
       end.

(** [handleNext] after its [await]: [setShowResults(true)]. *)
Definition handleNext_resumed (s : AIQuiz) : AIQuiz :=
  {| questions := questions s; currentQuestion := currentQuestion s;
     selectedAnswer := selectedAnswer s; submitted := submitted s;
     answers := answers s; showResults := true;
     awaiting := pred (awaiting s) |}.

Definition resetQuiz (s : AIQuiz) : AIQuiz :=
  {| questions := []; currentQuestion := 0; selectedAnswer := None;
     submitted := false; answers := []; showResults := false;
     awaiting := awaiting s |}.

(** What the component renders. *)
Inductive screen : Type := results_screen | form_screen | quiz_screen.

Definition render (s : AIQuiz) : screen :=
  if showResults s && bool_decide (0 < length (questions s))%nat
  then results_screen
  else if bool_decide (length (questions s) = 0%nat) then form_screen
  else quiz_screen.

(** The events the rendered page offers: the form on the form screen, the
    option buttons (disabled once the answer is submitted), Submit before
    and Next after the answer is submitted on the quiz screen, Try Another
    Quiz on the results screen. *)
Definition enabled (s : AIQuiz) (e : event) : bool :=
  match e, render s with
  | quiz_generated _, form_screen => true
  | select_answer index, quiz_screen =>
      negb (submitted s)
      && match questions s !! currentQuestion s with
         | Some q => bool_decide (index < length (options q))%nat
         | None => false
         end
  | submit_answer, quiz_screen => negb (submitted s)
  | next, quiz_screen => submitted s
  | reset_quiz, results_screen => true
  | addCoins_returned, _ => bool_decide (0 < awaiting s)%nat
  | _, _ => false
  end.

Definition handle (e : event) (s : AIQuiz) : AIQuiz * option nat :=
  match e with
  | quiz_generated generatedQuestions =>
      (handleGenerateQuiz generatedQuestions s, None)
  | select_answer index => (handleSelectAnswer index s, None)
  | submit_answer => (handleSubmitAnswer s, None)
  | next => handleNext s
  | addCoins_returned => (handleNext_resumed s, None)
  | reset_quiz => (resetQuiz s, None)
  end.

(** The states the page can get into from its first rendering. *)
Inductive reachable : AIQuiz -> Prop :=
| reachable_first : reachable useState
| reachable_event s e :
    reachable s -> enabled s e = true -> reachable (handle e s).1.

(** A quiz of two questions, the first answered rightly, both submitted. *)
Definition two_questions : list Question :=
  [ {| question := []; options := [[]; []]; correctAnswer := 1;
       explanation := [] |};
    {| question := []; options := [[]; []]; correctAnswer := 0;
       explanation := [] |} ].

Definition quiz_at_end : AIQuiz :=
  {| questions := two_questions; currentQuestion := 1;
     selectedAnswer := Some 1%nat; submitted := true;
     answers := [1; 1]%nat; showResults := false; awaiting := 0 |}.

(** The answers given so far are those of the questions gone through. *)
Definition in_step (s : AIQuiz) : Prop :=
  length (answers s) = (currentQuestion s + Nat.b2n (submitted s))%nat
  /\ (length (answers s) <= length (questions s))%nat
  /\ (questions s <> [] ->
      (currentQuestion s < length (questions s))%nat).

(** * Proofs *)

(** ** The two functions as equations *)

Lemma run_deduct_user_coins u a r g d :
  run (deduct_user_coins u a r g) d =
    if bool_decide (a <= 0)
    then (inl (raise_exception "Amount must be positive" []), d)
    else match profiles d !! u with
         | None => (inl (raise_exception "User not found" []), d)
         | Some c =>
             if bool_decide (c < a)
             then (inl (raise_exception
                          "Insufficient coins. Have: %, Need: %" [c; a]), d)
             else if decide (is_int4 (c - a))
             then (inr (c - a), posted u (c - a) (deduction_row u a r g (c - a)) d)
             else (inl integer_out_of_range, d)
         end.
Proof.
  unfold deduct_user_coins.
  case_bool_decide as Ha; [reflexivity|]. cbn.
  destruct (profiles d !! u) as [c|] eqn:Hu; [|reflexivity].
  case_bool_decide as Hc; [reflexivity|]. cbn.
  unfold int4mi. destruct (decide (is_int4 (c - a))); [|reflexivity].
  cbn. rewrite Hu. unfold write_coins.
  destruct (decide (0 <= c - a)); [|lia].
  cbn. rewrite lookup_insert_eq. reflexivity.
Qed.

Lemma run_add_user_coins u a r d :
  run (add_user_coins u a r) d =
    if bool_decide (a <= 0)
    then (inl (raise_exception "Amount must be positive" []), d)
    else match profiles d !! u with
         | None => (inl (raise_exception "User not found" []), d)
         | Some c =>
             if decide (is_int4 (c + a))
             then if decide (0 <= c + a)
                  then (inr (c + a),
                        posted u (c + a) (addition_row u a r (c + a)) d)
                  else (inl (check_violation "coins_non_negative"), d)
             else (inl integer_out_of_range, d)
         end.
Proof.
  unfold add_user_coins.
  case_bool_decide as Ha; [reflexivity|]. cbn.
  destruct (profiles d !! u) as [c|] eqn:Hu; [|reflexivity].
  destruct (decide (is_int4 (c + a))); [|reflexivity].
  unfold write_coins.
  destruct (decide (0 <= c + a)); [|reflexivity].
  cbn. rewrite lookup_insert_eq. reflexivity.
Qed.

Lemma run_deduct_user_coins_setup u a r g d :
  run (deduct_user_coins_setup u a r g) d =
    if bool_decide (a <= 0)
    then (inl (raise_exception "Amount must be positive" []), d)
    else match profiles d !! u with
         | None => (inl (raise_exception "User not found" []), d)
         | Some c =>
             if bool_decide (c < a)
             then (inl (raise_exception "Insufficient coins" []), d)
             else if decide (is_int4 (c - a))
             then (inr (c - a), posted u (c - a) (deduction_row u a r g (c - a)) d)
             else (inl integer_out_of_range, d)
         end.
Proof.
  unfold deduct_user_coins_setup.
  case_bool_decide as Ha; [reflexivity|]. cbn.
  destruct (profiles d !! u) as [c|] eqn:Hu; [|reflexivity].
  case_bool_decide as Hc; [reflexivity|]. cbn.
  unfold int4mi. destruct (decide (is_int4 (c - a))); [|reflexivity].
  cbn. rewrite Hu. unfold write_coins.
  destruct (decide (0 <= c - a)); [|lia].
  cbn. rewrite lookup_insert_eq. reflexivity.
Qed.

(** Case analysis on the guards of the two equations. *)
Ltac ledger_cases :=
  repeat first
    [ case_bool_decide
    | case_decide
    | match goal with
      | |- context [match profiles ?d !! ?u with _ => _ end] =>
          let E := fresh "Hrow" in
          destruct (profiles d !! u) eqn:E
      | H : context [match profiles ?d !! ?u with _ => _ end] |- _ =>
          let E := fresh "Hrow" in
          destruct (profiles d !! u) eqn:E
      end ].

(** ** A raising body has written nothing *)

Lemma run_deduct_user_coins_raises u a r g d e d' :
  run (deduct_user_coins u a r g) d = (inl e, d') -> d' = d.
Proof.
  rewrite run_deduct_user_coins. intros H.
  ledger_cases; congruence.
Qed.

Lemma run_add_user_coins_raises u a r d e d' :
  run (add_user_coins u a r) d = (inl e, d') -> d' = d.
Proof.
  rewrite run_add_user_coins. intros H.
  ledger_cases; congruence.
Qed.

(** So the rollback of [call] has nothing to undo. *)
Lemma debit_run u a r g d :
  debit u a r g d = run (deduct_user_coins u a r g) d.
Proof.
  unfold debit, call.
  destruct (run (deduct_user_coins u a r g) d) as [[e|v] d'] eqn:E;
    [|reflexivity].
  apply run_deduct_user_coins_raises in E. congruence.
Qed.

Lemma credit_run u a r d :
  credit u a r d = run (add_user_coins u a r) d.
Proof.
  unfold credit, call.
  destruct (run (add_user_coins u a r) d) as [[e|v] d'] eqn:E;
    [|reflexivity].
  apply run_add_user_coins_raises in E. congruence.
Qed.

(** ** The constraints are kept *)

Lemma non_negative_posted u v t d :
  non_negative d -> 0 <= v -> non_negative (posted u v t d).
Proof.
  unfold non_negative, posted. cbn. intros Hd Hv.
  apply map_Forall_insert_2; assumption.
Qed.

Lemma well_typed_posted u v t d :
  well_typed d -> 0 <= v <= int4_max -> well_typed (posted u v t d).
Proof.
  unfold well_typed, posted. cbn. intros Hd Hv.
  apply map_Forall_insert_2; assumption.
Qed.

Lemma exec_non_negative c d :
  non_negative d -> non_negative (exec c d).2.
Proof.
  intros Hd. destruct c as [u a r g|u a r]; cbn.
  - rewrite debit_run, run_deduct_user_coins.
    ledger_cases; cbn; try assumption.
    apply non_negative_posted; [assumption|lia].
  - rewrite credit_run, run_add_user_coins.
    ledger_cases; cbn; try assumption.
    apply non_negative_posted; assumption.
Qed.

Lemma exec_well_typed c d :
  well_typed d -> well_typed (exec c d).2.
Proof.
  intros Hd. destruct c as [u a r g|u a r]; cbn.
  - rewrite debit_run, run_deduct_user_coins.
    ledger_cases; cbn; try assumption.
    apply well_typed_posted; [assumption|].
    apply Hd in Hrow. lia.
  - rewrite credit_run, run_add_user_coins.
    ledger_cases; cbn; try assumption.
    apply well_typed_posted; [assumption|].
    unfold is_int4 in *. lia.
Qed.

Lemma states_non_negative calls : forall d,
  non_negative d -> Forall non_negative (states calls d).
Proof.
  induction calls as [|c rest IH]; intros d Hd; cbn.
  - constructor.
  - constructor.
    + apply exec_non_negative, Hd.
    + apply IH, exec_non_negative, Hd.
Qed.

Lemma run_calls_well_typed calls : forall d,
  well_typed d -> well_typed (run_calls calls d).
Proof.
  induction calls as [|c rest IH]; intros d Hd; cbn; [assumption|].
  apply IH, exec_well_typed, Hd.
Qed.

(** ** Successful calls *)

Lemma debit_posted (d : db) (u : uuid) (B a : Z) (r : string)
    (g : option string) :
  profiles d !! u = Some B -> is_int4 B -> 0 < a <= B ->
  debit u a r g d
  = (inr (B - a), posted u (B - a) (deduction_row u a r g (B - a)) d).
Proof.
  intros Hu HB Ha.
  rewrite debit_run, run_deduct_user_coins, Hu.
  rewrite bool_decide_eq_false_2 by lia.
  rewrite bool_decide_eq_false_2 by lia.
  rewrite decide_True; [reflexivity|].
  unfold is_int4, int4_min in *. lia.
Qed.

Lemma credit_posted (d : db) (u : uuid) (B a : Z) (r : string) :
  profiles d !! u = Some B -> 0 <= B -> 0 < a -> B + a <= int4_max ->
  credit u a r d
  = (inr (B + a), posted u (B + a) (addition_row u a r (B + a)) d).
Proof.
  intros Hu HB Ha Hmax.
  rewrite credit_run, run_add_user_coins, Hu.
  rewrite bool_decide_eq_false_2 by lia.
  rewrite decide_True by (unfold is_int4, int4_min; lia).
  rewrite decide_True by lia. reflexivity.
Qed.

(** ** The scenario of the specification *)

Example scenario_debit :
  debit acct 200 "game_unlock" (Some "epic-era-battles") db500
  = (inr 300,
     posted acct 300
       (deduction_row acct 200 "game_unlock" (Some "epic-era-battles") 300)
       db500).
Proof. rewrite debit_run, run_deduct_user_coins. reflexivity. Qed.

Example scenario_credit :
  let d1 := (debit acct 200 "game_unlock" (Some "epic-era-battles") db500).2 in
  (credit acct 50 "quiz_reward" d1).1 = inr 350
  /\ map resulting_balance_of (coin_transactions (credit acct 50 "quiz_reward" d1).2)
     = [Some 300; Some 350].
Proof. vm_compute. split; reflexivity. Qed.

(** * The ledger, one call at a time *)

(** ** Balances stay non-negative *)

(** C1. Starting from non-negative balances, every balance is >= 0 after
    every call of any sequence of debits and credits; and a debit of more
    than the balance raises the insufficient-coins exception and leaves the
    database as it was (the balance is not clamped to 0). *)
Theorem balance_never_negative :
  (forall (calls : list ledger_call) (d : db),
      non_negative d -> Forall non_negative (states calls d))
  /\ (forall (d : db) (u : uuid) (B a : Z) (r : string) (g : option string),
      profiles d !! u = Some B -> 0 <= B -> B < a ->
      debit u a r g d
      = (inl (raise_exception "Insufficient coins. Have: %, Need: %" [B; a]),
         d)
      /\ error_kind
           (raise_exception "Insufficient coins. Have: %, Need: %" [B; a])
         = InsufficientBalance).
Proof.
  split.
  - intros calls d. apply states_non_negative.
  - intros d u B a r g Hu HB Ha. split; [|reflexivity].
    rewrite debit_run, run_deduct_user_coins, Hu.
    rewrite bool_decide_eq_false_2 by lia.
    rewrite bool_decide_eq_true_2 by lia. reflexivity.
Qed.

Lemma balance_never_negative_witness :
  non_negative db500
  /\ Forall non_negative
       (states [Debit acct 600 "game_unlock" None;
                Credit acct 50 "quiz_reward";
                Debit acct 550 "game_unlock" None] db500)
  /\ debit acct 600 "game_unlock" None db500
     = (inl (raise_exception "Insufficient coins. Have: %, Need: %"
               [500; 600]), db500).
Proof.
  assert (Hnn : non_negative db500).
  { unfold non_negative.
    change (profiles db500) with ({[ acct := 500 ]} : gmap N Z).
    apply map_Forall_singleton. lia. }
  split; [exact Hnn|]. split.
  - apply (proj1 balance_never_negative). exact Hnn.
  - apply (proj2 balance_never_negative db500 acct 500 600);
      [reflexivity | lia | lia].
Defined.

(** ** What a successful call does *)

(** C2. A debit of an amount with 0 < amount <= B on an existing account
    with balance B (an INTEGER) returns B - amount, stores B - amount as
    the balance, and appends exactly one row to the log: a debit entry for
    this account with the given amount, reason and related resource and with
    resulting balance B - amount. *)
Theorem debit_succeeds (d : db) (u : uuid) (B a : Z) (r : string)
    (g : option string) :
  profiles d !! u = Some B -> is_int4 B -> 0 < a <= B ->
  let t := deduction_row u a r g (B - a) in
  debit u a r g d
  = (inr (B - a),
     {| profiles := <[u := B - a]> (profiles d);
        coin_transactions := coin_transactions d ++ [t] |})
  /\ kind_of t = Some kind_debit
  /\ amount_of t = Some a
  /\ resulting_balance_of t = Some (B - a).
Proof.
  intros Hu HB Ha t. split; [|repeat split].
  apply debit_posted; assumption.
Qed.

Lemma debit_succeeds_witness :
  debit acct 200 "game_unlock" (Some "epic-era-battles") db500
  = (inr 300,
     {| profiles := <[acct := 300]> (profiles db500);
        coin_transactions :=
          [deduction_row acct 200 "game_unlock" (Some "epic-era-battles")
             300] |}).
Proof.
  refine (proj1 (debit_succeeds db500 acct 500 200 "game_unlock"
                   (Some "epic-era-battles") _ _ _)).
  - reflexivity.
  - unfold is_int4, int4_min, int4_max. lia.
  - lia.
Defined.

(** C3, as the code has it.  A credit of an amount > 0 on an existing
    account with balance B returns B + amount, stores it and appends exactly
    one credit entry with resulting balance B + amount, provided B + amount
    is an INTEGER, that is B + amount <= 2147483647. *)
Theorem credit_succeeds (d : db) (u : uuid) (B a : Z) (r : string) :
  profiles d !! u = Some B -> 0 <= B -> 0 < a -> B + a <= int4_max ->
  let t := addition_row u a r (B + a) in
  credit u a r d
  = (inr (B + a),
     {| profiles := <[u := B + a]> (profiles d);
        coin_transactions := coin_transactions d ++ [t] |})
  /\ kind_of t = Some kind_credit
  /\ amount_of t = Some a
  /\ resulting_balance_of t = Some (B + a).
Proof.
  intros Hu HB Ha Hmax t. split; [|repeat split].
  apply credit_posted; assumption.
Qed.

Lemma credit_succeeds_witness :
  credit acct 50 "quiz_reward" db500
  = (inr 550,
     {| profiles := <[acct := 550]> (profiles db500);
        coin_transactions := [addition_row acct 50 "quiz_reward" 550] |}).
Proof.
  refine (proj1 (credit_succeeds db500 acct 500 50 "quiz_reward" _ _ _ _)).
  - reflexivity.
  - lia.
  - lia.
  - unfold int4_max. lia.
Defined.

Lemma credit_db_full :
  credit acct 1 "reward" db_full = (inl integer_out_of_range, db_full).
Proof. rewrite credit_run, run_add_user_coins. reflexivity. Qed.

(** C3 as stated fails: on a balance of 2147483647 a credit of 1 does not
    return 2147483648; the addition raises "integer out of range" and
    nothing changes. *)
Lemma credit_overflow :
  profiles db_full !! acct = Some 2147483647
  /\ credit acct 1 "reward" db_full = (inl integer_out_of_range, db_full)
  /\ (credit acct 1 "reward" db_full).1 <> inr (2147483647 + 1).
Proof.
  split; [reflexivity|]. rewrite credit_db_full.
  split; [reflexivity|]. discriminate.
Qed.

(** ** Which call fails how *)

Ltac kind_facts :=
  unfold fails_with, succeeds;
  repeat match goal with
         | |- _ <-> _ => split
         | |- _ /\ _ => split
         | |- _ -> _ => intro
         | H : _ /\ _ |- _ => destruct H
         | H : exists _, _ |- _ => destruct H
         | H : inl _ = inl _ |- _ => injection H as H; subst
         | H : inr _ = inr _ |- _ => injection H as H; subst
         | H : Some _ = Some _ |- _ => injection H as H; subst
         | H : error_kind _ = _ |- _ => cbn in H
         end;
  try discriminate; try congruence; try lia.

(** What a call with a NULL amount does: the amount test lets it pass, and
    it fails on the account, which does not exist or whose [coins] cannot be
    set to NULL. *)
Lemma call_deduct_user_coins_null u r g d :
  call (deduct_user_coins_null u r g) d
  = (inl (match profiles d !! u with
          | Some _ => not_null_violation "coins"
          | None => raise_exception "User not found" []
          end), d).
Proof.
  unfold call, deduct_user_coins_null. cbn.
  destruct (profiles d !! u) as [B|] eqn:Hu; cbn; [|reflexivity].
  rewrite Hu. reflexivity.
Qed.

Lemma call_add_user_coins_null u r d :
  call (add_user_coins_null u r) d
  = (inl (match profiles d !! u with
          | Some _ => not_null_violation "coins"
          | None => raise_exception "User not found" []
          end), d).
Proof.
  unfold call, add_user_coins_null. cbn.
  destruct (profiles d !! u) as [B|] eqn:Hu; reflexivity.
Qed.

Lemma null_amount_outcome (res : (pg_error + option Z) * db) d u :
  res = (inl (match profiles d !! u with
              | Some _ => not_null_violation "coins"
              | None => raise_exception "User not found" []
              end), d) ->
  (res.1 = inl (raise_exception "User not found" [])
   <-> profiles d !! u = None)
  /\ (res.1 = inl (not_null_violation "coins") <-> is_Some (profiles d !! u))
  /\ (forall e, res.1 = inl e -> error_kind e <> InvalidAmount)
  /\ (forall v, res.1 <> inr v)
  /\ res.2 = d.
Proof.
  intros ->. cbn [fst snd].
  split; [|split; [|split; [|split; [discriminate | reflexivity]]]].
  - destruct (profiles d !! u); split; intros H;
      first [discriminate H | reflexivity].
  - destruct (profiles d !! u); split; intros H;
      first [ discriminate H | reflexivity | eexists; reflexivity
            | destruct H as (x & Hx); discriminate Hx ].
  - intros e He. injection He as <-.
    destruct (profiles d !! u); discriminate.
Qed.

(** C4 as stated fails: the account [ghost] does not exist, and still a
    debit of -5 on it does not fail with the user-not-found exception but
    with the amount exception; a credit of 1 on an existing account with
    a positive amount fails although neither error condition holds; and a
    debit whose amount is NULL, which is no integer, does not fail with the
    amount exception. *)
Lemma debit_ghost_negative_amount :
  profiles db500 !! ghost = None
  /\ (debit ghost (-5) "x" None db500).1
     = inl (raise_exception "Amount must be positive" [])
  /\ ~ fails_with (debit ghost (-5) "x" None db500).1 AccountNotFound
  /\ ~ succeeds (credit acct 1 "reward" db_full).1
  /\ (call (deduct_user_coins_null acct "x" None) db500).1
     = inl (not_null_violation "coins")
  /\ error_kind (not_null_violation "coins") <> InvalidAmount.
Proof.
  split; [reflexivity|].
  assert (E : debit ghost (-5) "x" None db500
              = (inl (raise_exception "Amount must be positive" []), db500)).
  { rewrite debit_run, run_deduct_user_coins. reflexivity. }
  rewrite E. cbn. split; [reflexivity|]. split; [|split; [|split]].
  - intros (e & [= <-] & Hk). discriminate Hk.
  - rewrite credit_db_full. intros (v & Hv). discriminate Hv.
  - reflexivity.
  - discriminate.
Qed.

(** C4, as the code has it.  On a database whose balances are INTEGER
    values >= 0, for an amount that is an integer: a debit fails with the
    amount exception exactly when amount <= 0, with the user-not-found
    exception exactly when amount > 0 and the account does not exist, with
    the insufficient-coins exception exactly when the account exists and its
    balance is below the amount (the amount is then positive), and succeeds
    in all remaining cases; a credit fails with the amount exception exactly
    when amount <= 0, with the user-not-found exception exactly when
    amount > 0 and the account does not exist, with "integer out of range"
    exactly when amount > 0, the account exists and
    balance + amount > 2147483647, and succeeds in all remaining cases.  For
    an amount that is NULL: a debit and a credit fail with the user-not-found
    exception exactly when the account does not exist and with the not-null
    violation of [coins] exactly when it exists; they never fail with the
    amount exception, never succeed and leave the database as it was. *)
Theorem debit_credit_outcomes (d : db) (u : uuid) (a : Z) (r : string)
    (g : option string) :
  well_typed d ->
  let rd := (debit u a r g d).1 in
  let rc := (credit u a r d).1 in
  (fails_with rd InvalidAmount <-> a <= 0)
  /\ (fails_with rd AccountNotFound <-> 0 < a /\ profiles d !! u = None)
  /\ (fails_with rd InsufficientBalance
      <-> exists B, profiles d !! u = Some B /\ B < a)
  /\ (succeeds rd <-> 0 < a /\ exists B, profiles d !! u = Some B /\ a <= B)
  /\ (fails_with rc InvalidAmount <-> a <= 0)
  /\ (fails_with rc AccountNotFound <-> 0 < a /\ profiles d !! u = None)
  /\ (rc = inl integer_out_of_range
      <-> 0 < a /\ exists B, profiles d !! u = Some B /\ int4_max < B + a)
  /\ (succeeds rc
      <-> 0 < a /\ exists B, profiles d !! u = Some B /\ B + a <= int4_max)
  /\ (let nd := call (deduct_user_coins_null u r g) d in
      (nd.1 = inl (raise_exception "User not found" [])
       <-> profiles d !! u = None)
      /\ (nd.1 = inl (not_null_violation "coins")
          <-> is_Some (profiles d !! u))
      /\ (forall e, nd.1 = inl e -> error_kind e <> InvalidAmount)
      /\ (forall v, nd.1 <> inr v)
      /\ nd.2 = d)
  /\ (let nc := call (add_user_coins_null u r) d in
      (nc.1 = inl (raise_exception "User not found" [])
       <-> profiles d !! u = None)
      /\ (nc.1 = inl (not_null_violation "coins")
          <-> is_Some (profiles d !! u))
      /\ (forall e, nc.1 = inl e -> error_kind e <> InvalidAmount)
      /\ (forall v, nc.1 <> inr v)
      /\ nc.2 = d).
Proof.
  intros Hd rd rc. subst rd rc.
  refine (conj _ (conj _ (conj _ (conj _ (conj _ (conj _ (conj _
            (conj _ (conj _ _))))))))).
  9: apply null_amount_outcome, call_deduct_user_coins_null.
  9: apply null_amount_outcome, call_add_user_coins_null.
  all: rewrite ?debit_run, ?run_deduct_user_coins, ?credit_run,
         ?run_add_user_coins;
    destruct (profiles d !! u) as [B|] eqn:Hu;
    [ pose proof (Hd _ _ Hu) as HB; cbn in HB;
      unfold is_int4, int4_min, int4_max in *;
      ledger_cases; cbn [fst]; kind_facts;
        try (eexists; split; [reflexivity|reflexivity]);
        try (eexists; split; [reflexivity|lia]);
        try (eexists; reflexivity)
    | ledger_cases; cbn [fst]; kind_facts;
        try (eexists; split; [reflexivity|reflexivity]) ].
Qed.

Lemma well_typed_db500 : well_typed db500.
Proof.
  unfold well_typed.
  change (profiles db500) with ({[ acct := 500 ]} : gmap N Z).
  apply map_Forall_singleton. unfold int4_max. lia.
Defined.

Lemma debit_credit_outcomes_witness :
  well_typed db500
  /\ (fails_with (debit ghost 10 "x" None db500).1 AccountNotFound
      <-> 0 < 10 /\ profiles db500 !! ghost = None)
  /\ (succeeds (credit acct 10 "x" db500).1
      <-> 0 < 10
          /\ exists B, profiles db500 !! acct = Some B /\ B + 10 <= int4_max).
Proof.
  split; [exact well_typed_db500|].
  pose proof (debit_credit_outcomes db500 ghost 10 "x" None well_typed_db500)
    as Hg.
  pose proof (debit_credit_outcomes db500 acct 10 "x" None well_typed_db500)
    as Ha.
  split.
  - exact (proj1 (proj2 Hg)).
  - exact (proj1 (proj2 (proj2 (proj2 (proj2 (proj2 (proj2 (proj2 Ha)))))))).
Defined.

(** ** Failed calls *)

(** C5. When a debit or a credit fails, with whatever error, the database
    is as it was before the call: no balance has changed and no row has been
    appended to the log.  This holds for the database the raising body
    leaves behind, before any rollback, and hence for the call. *)
Theorem failed_call_changes_nothing (c : ledger_call) (d : db) (e : pg_error) :
  (run (body c) d).1 = inl e ->
  (run (body c) d).2 = d
  /\ exec c d = (inl e, d)
  /\ profiles (exec c d).2 = profiles d
  /\ coin_transactions (exec c d).2 = coin_transactions d.
Proof.
  intros He.
  assert (Hraw : (run (body c) d).2 = d).
  { destruct (run (body c) d) as [res d'] eqn:E. cbn in He. subst res. cbn.
    destruct c as [u a r g|u a r]; cbn [body] in E.
    - eapply run_deduct_user_coins_raises, E.
    - eapply run_add_user_coins_raises, E. }
  assert (Hexec : exec c d = (inl e, d)).
  { destruct c as [u a r g|u a r]; cbn [exec body] in *.
    - rewrite debit_run. rewrite (surjective_pairing (run _ d)).
      rewrite He, Hraw. reflexivity.
    - rewrite credit_run. rewrite (surjective_pairing (run _ d)).
      rewrite He, Hraw. reflexivity. }
  rewrite Hexec. repeat split; assumption.
Qed.

Lemma failed_call_changes_nothing_witness :
  exec (Debit acct 600 "game_unlock" None) db500
  = (inl (raise_exception "Insufficient coins. Have: %, Need: %" [500; 600]),
     db500).
Proof.
  refine (proj1 (proj2 (failed_call_changes_nothing
                          (Debit acct 600 "game_unlock" None) db500 _ _))).
  cbn [body]. rewrite run_deduct_user_coins. reflexivity.
Defined.

(** ** Round trips *)

(** C6, as the code has it.  On an account with an INTEGER balance B, a
    debit of n with 0 < n <= B followed by a credit of n leaves the balances
    as they were; a credit of n > 0 followed by a debit of n does so too
    provided B + n <= 2147483647, so that the credit succeeds.  Both calls
    succeed in both orders. *)
Theorem debit_credit_round_trip (d : db) (u : uuid) (B n : Z)
    (r r' : string) (g : option string) :
  profiles d !! u = Some B -> 0 <= B <= int4_max -> 0 < n ->
  (n <= B ->
   exists d1 d2,
     debit u n r g d = (inr (B - n), d1)
     /\ credit u n r' d1 = (inr B, d2)
     /\ profiles d2 = profiles d)
  /\ (B + n <= int4_max ->
      exists d1 d2,
        credit u n r' d = (inr (B + n), d1)
        /\ debit u n r g d1 = (inr B, d2)
        /\ profiles d2 = profiles d).
Proof.
  intros Hu HB Hn. split; intros Hle.
  - eexists _, _. split.
    { apply debit_posted; [exact Hu | | lia].
      unfold is_int4, int4_min, int4_max in *. lia. }
    split.
    + rewrite (credit_posted _ u (B - n) n r');
        [ | apply lookup_insert_eq | lia | lia | lia].
      replace (B - n + n) with B by lia. reflexivity.
    + cbn. rewrite insert_insert_eq. apply insert_id, Hu.
  - eexists _, _. split.
    { apply credit_posted; [exact Hu | lia | lia | lia]. }
    split.
    + rewrite (debit_posted _ u (B + n) n r g);
        [ | apply lookup_insert_eq
          | unfold is_int4, int4_min, int4_max in *; lia | lia].
      replace (B + n - n) with B by lia. reflexivity.
    + cbn. rewrite insert_insert_eq. apply insert_id, Hu.
Qed.

Lemma debit_credit_round_trip_witness :
  (exists d1 d2,
     debit acct 200 "game_unlock" None db500 = (inr (500 - 200), d1)
     /\ credit acct 200 "refund" d1 = (inr 500, d2)
     /\ profiles d2 = profiles db500)
  /\ (exists d1 d2,
        credit acct 200 "refund" db500 = (inr (500 + 200), d1)
        /\ debit acct 200 "game_unlock" None d1 = (inr 500, d2)
        /\ profiles d2 = profiles db500).
Proof.
  assert (Hu : profiles db500 !! acct = Some 500) by reflexivity.
  assert (HB : 0 <= 500 <= int4_max) by (unfold int4_max; lia).
  assert (Hn : 0 < 200) by lia.
  pose proof (debit_credit_round_trip db500 acct 500 200
                "game_unlock" "refund" None Hu HB Hn) as [H1 H2].
  split.
  - apply H1. lia.
  - apply H2. unfold int4_max. lia.
Defined.

(** C6 as stated fails: on a balance of 2147483647 the credit of 1 raises
    "integer out of range", the debit of 1 that follows succeeds, and the
    balance ends at 2147483646. *)
Lemma credit_debit_at_int4_max :
  profiles db_full !! acct = Some 2147483647
  /\ (credit acct 1 "reward" db_full).1 = inl integer_out_of_range
  /\ profiles
       (run_calls [Credit acct 1 "reward"; Debit acct 1 "game_unlock" None]
          db_full) !! acct
     = Some 2147483646.
Proof.
  split; [reflexivity|]. split.
  - rewrite credit_db_full. reflexivity.
  - unfold run_calls. cbn [foldl exec]. rewrite credit_db_full. cbn [snd].
    rewrite debit_run, run_deduct_user_coins. reflexivity.
Qed.

(** ** The log replays *)

Lemma replay_app log1 : forall b log2,
  replay b (log1 ++ log2) = replay b log1 ≫= fun b' => replay b' log2.
Proof.
  induction log1 as [|t rest IH]; intros b log2; cbn; [reflexivity|].
  destruct (replay_entry b t) as [b1|]; [|reflexivity].
  case_decide; [apply IH | reflexivity].
Qed.

Lemma replay_replayed_balances log : forall b b',
  replay b log = Some b' ->
  replayed_balances b log = map resulting_balance_of log.
Proof.
  induction log as [|t rest IH]; intros b b' H; cbn in *; [reflexivity|].
  destruct (replay_entry b t) as [b1|]; [|discriminate].
  case_decide as Hrec; [|discriminate].
  rewrite Hrec. f_equal. eapply IH, H.
Qed.

Lemma replay_entry_deduction_row b u a r g v :
  replay_entry b (deduction_row u a r g v) = Some (b - a).
Proof. reflexivity. Qed.

Lemma replay_entry_addition_row b u a r v :
  replay_entry b (addition_row u a r v) = Some (b + a).
Proof. reflexivity. Qed.

Lemma replay_deduction_row b u a r g :
  replay b [deduction_row u a r g (b - a)] = Some (b - a).
Proof.
  cbn [replay]. rewrite replay_entry_deduction_row.
  rewrite decide_True by reflexivity. reflexivity.
Qed.

Lemma replay_addition_row b u a r :
  replay b [addition_row u a r (b + a)] = Some (b + a).
Proof.
  cbn [replay]. rewrite replay_entry_addition_row.
  rewrite decide_True by reflexivity. reflexivity.
Qed.

Lemma account_log_posted u' u v t d :
  account_log u' (posted u v t d)
  = if decide (user_id t = u') then account_log u' d ++ [t]
    else account_log u' d.
Proof.
  unfold account_log, posted. cbn. rewrite filter_app.
  case_decide as Hid.
  - rewrite filter_cons_True by exact Hid. reflexivity.
  - rewrite filter_cons_False by exact Hid. cbn. apply app_nil_r.
Qed.

Lemma log_consistent_posted d u' u B v t :
  log_consistent u' d ->
  profiles d !! u = Some B ->
  user_id t = u ->
  replay B [t] = Some v ->
  log_consistent u' (posted u v t d).
Proof.
  unfold log_consistent. intros Hd Hu Ht Hrep. rewrite account_log_posted.
  unfold posted at 1. cbn [profiles].
  destruct (decide (u = u')) as [<-|Hne].
  - rewrite lookup_insert_eq, decide_True by exact Ht.
    rewrite Hu in Hd. rewrite replay_app, Hd. exact Hrep.
  - rewrite lookup_insert_ne by exact Hne.
    rewrite decide_False by congruence. exact Hd.
Qed.

Lemma exec_log_consistent c d u' :
  log_consistent u' d -> log_consistent u' (exec c d).2.
Proof.
  intros Hd. destruct c as [u a r g|u a r]; cbn [exec].
  - rewrite debit_run, run_deduct_user_coins.
    ledger_cases; cbn [snd]; try assumption.
    eapply log_consistent_posted; eauto using replay_deduction_row.
  - rewrite credit_run, run_add_user_coins.
    ledger_cases; cbn [snd]; try assumption.
    eapply log_consistent_posted; eauto using replay_addition_row.
Qed.

Lemma run_calls_log_consistent calls u : forall d,
  log_consistent u d -> log_consistent u (run_calls calls d).
Proof.
  induction calls as [|c rest IH]; intros d Hd; cbn; [assumption|].
  apply IH, exec_log_consistent, Hd.
Qed.

(** C7. Take an account with balance 0 and no row in the log, whatever the
    balances and the rows of the other accounts.  After any sequence of
    debits and credits, on this and on other accounts, run one after the
    other (failed calls change nothing), replaying the log entries of the
    account from 0 -- in the order in which the calls inserted them, which
    is the order the table is kept in; adding the amount of a credit,
    subtracting the amount of a debit -- goes through exactly the resulting
    balances the entries record, and ends at the stored balance. *)
Theorem log_replays (d0 : db) (calls : list ledger_call) (u : uuid) (B : Z) :
  profiles d0 !! u = Some 0 ->
  account_log u d0 = [] ->
  profiles (run_calls calls d0) !! u = Some B ->
  let log := account_log u (run_calls calls d0) in
  replay 0 log = Some B
  /\ replayed_balances 0 log = map resulting_balance_of log.
Proof.
  intros Hzero Hlog HB log.
  assert (H0 : log_consistent u d0).
  { unfold log_consistent. rewrite Hzero, Hlog. reflexivity. }
  pose proof (run_calls_log_consistent calls u d0 H0) as H.
  unfold log_consistent in H. rewrite HB in H. split; [exact H|].
  eapply replay_replayed_balances, H.
Qed.

Lemma log_replays_witness :
  let calls := [Credit acct 500 "quiz_reward";
                Credit other 5 "quiz_reward";
                Debit acct 200 "game_unlock" (Some "epic-era-battles");
                Debit acct 400 "game_unlock" None;
                Debit other 10 "game_unlock" None;
                Credit acct 50 "quiz_reward"] in
  let log := account_log acct (run_calls calls db0_other) in
  replay 0 log = Some 350
  /\ replayed_balances 0 log = map resulting_balance_of log.
Proof.
  intros calls log.
  apply (log_replays db0_other calls acct 350).
  - reflexivity.
  - reflexivity.
  - vm_compute. reflexivity.
Defined.

(** ** The insufficient-coins exception *)

(** In the body of the SQL setup file the exception carries the balance and
    the amount. *)
Lemma deduct_user_coins_insufficient (d : db) (u : uuid) (a : Z) (r : string)
    (g : option string) (e : pg_error) :
  (run (deduct_user_coins u a r g) d).1 = inl e ->
  error_kind e = InsufficientBalance ->
  exists B, profiles d !! u = Some B /\ B < a /\ carries e B /\ carries e a.
Proof.
  rewrite run_deduct_user_coins. intros He Hk.
  ledger_cases; cbn [fst] in He; try discriminate He;
    injection He as <-; try discriminate Hk.
  eexists. split; [reflexivity|]. split; [assumption|].
  cbn. split; set_solver.
Qed.

Example sql_file_insufficient_coins :
  (debit acct 600 default_deduct_reason default_game_id db500).1
  = inl (insufficient_coins 500 600)
  /\ format_message "Insufficient coins. Have: %, Need: %" [500; 600]
     = "Insufficient coins. Have: 500, Need: 600".
Proof.
  rewrite debit_run, run_deduct_user_coins. split; reflexivity.
Qed.

(** C8, at a failing input.  With the body that [execute-setup.js]
    installs, a debit of 600 on a balance of 500 fails with the
    insufficient-coins exception, and the exception carries neither the
    balance nor the amount. *)
Theorem setup_insufficient_coins_carries_nothing :
  profiles db500 !! acct = Some 500
  /\ run (deduct_user_coins_setup acct 600 "game_unlock" None) db500
     = (inl (raise_exception "Insufficient coins" []), db500)
  /\ error_kind (raise_exception "Insufficient coins" []) = InsufficientBalance
  /\ format_message "Insufficient coins" [] = "Insufficient coins"
  /\ ~ carries (raise_exception "Insufficient coins" []) 500
  /\ ~ carries (raise_exception "Insufficient coins" []) 600.
Proof.
  split; [reflexivity|].
  split; [rewrite run_deduct_user_coins_setup; reflexivity|].
  split; [reflexivity|]. split; [reflexivity|].
  cbn. split; set_solver.
Qed.

(** ** The order of the checks *)

(** C10. For every account identifier, existing or not, and every amount
    <= 0, both the debit and the credit fail with the amount exception, not
    with the user-not-found exception: the amount is checked before the
    account is looked up. *)
Theorem amount_checked_first (d : db) (u : uuid) (a : Z) (r r' : string)
    (g : option string) :
  a <= 0 ->
  debit u a r g d = (inl (raise_exception "Amount must be positive" []), d)
  /\ credit u a r' d = (inl (raise_exception "Amount must be positive" []), d)
  /\ error_kind (raise_exception "Amount must be positive" []) = InvalidAmount
  /\ ~ fails_with (debit u a r g d).1 AccountNotFound
  /\ ~ fails_with (credit u a r' d).1 AccountNotFound.
Proof.
  intros Ha.
  rewrite debit_run, run_deduct_user_coins, credit_run, run_add_user_coins.
  rewrite bool_decide_eq_true_2 by exact Ha.
  cbn [fst]. repeat split; intros (e & [= <-] & Hk); discriminate Hk.
Qed.

Lemma amount_checked_first_witness :
  profiles db500 !! ghost = None
  /\ debit ghost (-5) "x" None db500
     = (inl (raise_exception "Amount must be positive" []), db500)
  /\ credit ghost 0 "x" db500
     = (inl (raise_exception "Amount must be positive" []), db500).
Proof.
  split; [reflexivity|]. split.
  - apply (amount_checked_first db500 ghost (-5) "x" "x" None). lia.
  - apply (amount_checked_first db500 ghost 0 "x" "x" None). lia.
Defined.

(** * The ledger under concurrent calls *)

Lemma apply_effects_app ws ws' d :
  apply_effects (ws ++ ws') d = apply_effects ws' (apply_effects ws d).
Proof. unfold apply_effects. apply foldl_app. Qed.

Lemma release_singleton i id : release i {[ id := i ]} = ∅.
Proof.
  unfold release. apply map_filter_singleton_False. cbn. intros H. apply H.
  reflexivity.
Qed.

(** The holder of the lock is never made to wait for it. *)
Lemma acquire_held {X} i (s : stmt X) view locks id :
  locked_row s = None \/ locked_row s = Some id ->
  locks !! id = Some i ->
  acquire i s view locks = Some locks.
Proof.
  intros [Hs|Hs] Hl; unfold acquire; rewrite Hs; [reflexivity|].
  destruct (profiles view !! id); [|reflexivity].
  rewrite Hl, decide_True by reflexivity. reflexivity.
Qed.

(** The body starts by selecting the row for update. *)
Lemma deduct_user_coins_select u n r g :
  0 < n ->
  exists k,
    deduct_user_coins u n r g = Exec (select_coins_for_update u) k
    /\ (forall v, locks_only u (k v))
    /\ (forall v, ends_within 2 (k v)).
Proof.
  intros Hn. unfold deduct_user_coins.
  rewrite bool_decide_eq_false_2 by lia. cbn.
  eexists. split; [reflexivity|].
  split; intros [c|]; cbn; try exact I.
  - case_bool_decide; cbn; [exact I|].
    unfold int4mi. case_decide; cbn; [|exact I].
    split; [right; reflexivity|]. intros _. split; [left; reflexivity|].
    intros _. exact I.
  - case_bool_decide; cbn; [exact I|].
    unfold int4mi. case_decide; cbn; [|exact I].
    intros _ _. exact I.
Qed.

(** A call on an existing account with an INTEGER balance, for a positive
    amount. *)
Lemma run_deduct_user_coins_existing u n r g d b :
  profiles d !! u = Some b -> 0 <= b <= int4_max -> 0 < n ->
  run (deduct_user_coins u n r g) d =
    if bool_decide (b < n) then (inl (insufficient_coins b n), d)
    else (inr (b - n), posted u (b - n) (deduction_row u n r g (b - n)) d).
Proof.
  intros Hu Hb Hn. rewrite run_deduct_user_coins, Hu.
  rewrite bool_decide_eq_false_2 by lia.
  case_bool_decide; [reflexivity|].
  rewrite decide_True; [reflexivity|].
  unfold is_int4, int4_min, int4_max in *. lia.
Qed.

(** Counting sessions. *)
Lemma length_filter_insert (f : session -> bool) (ss : list session) :
  forall i s s',
  ss !! i = Some s ->
  (length (filter (fun s => f s = true) (<[i := s']> ss))
   + (if f s then 1 else 0)
   = length (filter (fun s => f s = true) ss) + (if f s' then 1 else 0))%nat.
Proof.
  induction ss as [|s0 ss IH]; intros i s s' Hi; [discriminate|].
  destruct i as [|i]; cbn in Hi.
  - injection Hi as ->.
    change (<[0%nat := s']> (s :: ss)) with (s' :: ss).
    rewrite !filter_cons.
    destruct (f s) eqn:E, (f s') eqn:E'; repeat case_decide;
      try congruence; cbn [length]; lia.
  - change (<[S i := s']> (s0 :: ss)) with (s0 :: <[i := s']> ss).
    rewrite !filter_cons. specialize (IH i s s' Hi).
    case_decide; cbn [length]; lia.
Qed.

Lemma ends_within_S p : forall m, ends_within m p -> ends_within (S m) p.
Proof.
  induction p as [v|e|X s k IH]; intros m H; try exact I.
  destruct m as [|m]; [destruct H|]. cbn in *. intros x. apply IH, H.
Qed.

(** ** Schedules *)

Lemma run_schedule_app s1 : forall s2 c,
  run_schedule (s1 ++ s2) c = run_schedule s2 (run_schedule s1 c).
Proof.
  induction s1 as [|i rest IH]; intros s2 c; cbn; [reflexivity|]. apply IH.
Qed.

Lemma run_schedule_cons i rest c c' :
  step i c = Some c' ->
  run_schedule (i :: rest) c = run_schedule rest c'.
Proof. intros H. cbn. rewrite H. reflexivity. Qed.

Lemma run_schedule_finished i m : forall c r,
  sessions c !! i = Some (finished r) ->
  run_schedule (replicate m i) c = c.
Proof.
  induction m as [|m IH]; intros c r Hi; cbn; [reflexivity|].
  unfold step. rewrite Hi. cbn. eapply IH, Hi.
Qed.

(** ** A session on its own *)

Lemma release_all i (locks : gmap N nat) :
  map_Forall (fun _ j => j = i) locks -> release i locks = ∅.
Proof.
  intros H. unfold release. apply map_eq. intros id.
  rewrite lookup_empty. apply map_lookup_filter_None. right.
  intros j Hj Hne. apply Hne. cbn. exact (H id j Hj).
Qed.

Lemma acquire_alone {X} i (s : stmt X) view (locks : gmap N nat) :
  map_Forall (fun _ j => j = i) locks ->
  exists locks',
    acquire i s view locks = Some locks'
    /\ map_Forall (fun _ j => j = i) locks'.
Proof.
  intros H. unfold acquire.
  destruct (locked_row s) as [id|]; [|eauto].
  destruct (profiles view !! id); [|eauto].
  destruct (locks !! id) as [j|] eqn:Hid.
  - rewrite (H id j Hid), decide_True by reflexivity. eauto.
  - eexists. split; [reflexivity|].
    apply map_Forall_insert_2; [reflexivity|exact H].
Qed.

(** The only session of a cluster is never made to wait, and ends with the
    result and the database of the call. *)
Lemma alone_finishes m : forall p ws locks d,
  map_Forall (fun _ j => j = 0%nat) locks ->
  ends_within m p ->
  run_schedule (replicate (S m) 0%nat)
    {| committed := d; row_locks := locks; sessions := [running p ws] |}
  = {| committed := match run p (apply_effects ws d) with
                    | (inl _, _) => d
                    | (inr _, d') => d'
                    end;
       row_locks := ∅;
       sessions := [finished (run p (apply_effects ws d)).1] |}.
Proof.
  induction m as [|m IH]; intros p ws locks d Hl Hm.
  - destruct p as [v|e|X s k]; [| |destruct Hm];
      cbn; unfold finish; cbn; rewrite (release_all _ _ Hl); reflexivity.
  - change (replicate (S (S m)) 0%nat) with (0%nat :: replicate (S m) 0%nat).
    destruct p as [v|e|X s k].
    + cbn [run_schedule]. unfold step at 1. cbn. unfold finish. cbn.
      rewrite (release_all _ _ Hl).
      eapply (run_schedule_finished 0 _ _ (inr v)). reflexivity.
    + cbn [run_schedule]. unfold step at 1. cbn. unfold finish. cbn.
      rewrite (release_all _ _ Hl).
      eapply (run_schedule_finished 0 _ _ (inl e)). reflexivity.
    + destruct (acquire_alone 0%nat s (apply_effects ws d) locks Hl)
        as (locks' & Hacq & Hl').
      cbn [run_schedule]. unfold step at 1.
      cbn [sessions lookup list_lookup committed row_locks].
      rewrite Hacq. cbn [run].
      destruct (exec_stmt s (apply_effects ws d)) as [e|[x ws']] eqn:Hex.
      * cbn [default from_option id]. unfold finish. cbn.
        rewrite (release_all _ _ Hl).
        eapply (run_schedule_finished 0 _ _ (inl e)). reflexivity.
      * cbn [default from_option id].
        change (<[0%nat := running (k x) (ws ++ ws')]> [running (Exec s k) ws])
          with [running (k x) (ws ++ ws')].
        rewrite (IH (k x) (ws ++ ws') locks' d Hl' (Hm x)).
        rewrite apply_effects_app. reflexivity.
Qed.

Theorem solo_session (p : plpgsql Z) (d : db) (m : nat) :
  ends_within m p ->
  run_schedule (replicate (S m) 0%nat) (start d [p])
  = {| committed := (call p d).2;
       row_locks := ∅;
       sessions := [finished (call p d).1] |}.
Proof.
  intros Hm. unfold start. cbn [map].
  rewrite (alone_finishes m p [] ∅ d); [|apply map_Forall_empty|exact Hm].
  unfold call. cbn [apply_effects foldl].
  destruct (run p d) as [[e|v] d']; reflexivity.
Qed.

(** ** Debits on one account *)

Section Debits.
Context (u : uuid) (B n : Z) (d0 : db)
  (args : list (string * option string)).
Hypothesis Hrow : profiles d0 !! u = Some B.
Hypothesis HB : 0 <= B <= int4_max.
Hypothesis Hn : 0 < n.

Local Abbreviation inv := (debits_inv u B n d0 args).
Local Abbreviation bal := (balance_after B n).

Lemma inv_balance c :
  inv c ->
  profiles (committed c) !! u = Some (bal (successes c))
  /\ 0 <= bal (successes c) <= int4_max.
Proof.
  intros Hinv. rewrite (inv_profiles c Hinv), lookup_insert_eq.
  split; [reflexivity|]. pose proof (inv_non_negative c Hinv).
  unfold bal in *. nia.
Qed.

Lemma debits_inv_start : inv (start d0 (debits u n args)).
Proof.
  assert (Hk : successes (start d0 (debits u n args)) = 0%nat
               /\ failures (start d0 (debits u n args)) = 0%nat).
  { unfold successes, failures, start, debits. cbn [sessions].
    induction args as [|a l IH]; [split; reflexivity|]. cbn [map].
    rewrite !filter_cons_False by (cbn; discriminate). exact IH. }
  destruct Hk as [Hs Hf].
  split; rewrite ?Hs, ?Hf; unfold bal; cbn [start sessions committed row_locks].
  - unfold debits. rewrite !length_map. reflexivity.
  - left. reflexivity.
  - intros i p ws Hi. unfold debits in Hi.
    rewrite !list_lookup_fmap in Hi.
    destruct (args !! i) as [[r g]|] eqn:Ha; [|discriminate].
    cbn in Hi. injection Hi as <- <-.
    exists r, g. split; [reflexivity|].
    destruct (deduct_user_coins_select u n r g Hn) as (k & -> & Hl & He).
    split; [split; [right; reflexivity|exact Hl]|].
    split; [intros x; exact (He x)|].
    split; [reflexivity|]. right. split; reflexivity.
  - rewrite Z.mul_0_r, Z.sub_0_r. symmetry. apply insert_id, Hrow.
  - lia.
  - intros i e Hi. unfold debits in Hi. rewrite !list_lookup_fmap in Hi.
    destruct (args !! i); discriminate.
  - lia.
  - exists []. rewrite app_nil_r. repeat split. constructor.
Qed.

Lemma successes_insert c i s s' :
  sessions c !! i = Some s ->
  (length (filter (fun s => is_success s = true) (<[i := s']> (sessions c)))
   + (if is_success s then 1 else 0)
   = successes c + (if is_success s' then 1 else 0))%nat.
Proof. apply length_filter_insert. Qed.

Lemma failures_insert c i s s' :
  sessions c !! i = Some s ->
  (length (filter (fun s => is_failure s = true) (<[i := s']> (sessions c)))
   + (if is_failure s then 1 else 0)
   = failures c + (if is_failure s' then 1 else 0))%nat.
Proof. apply length_filter_insert. Qed.

(** While the lock is free or held by session [i], every other running
    session has not started. *)
Lemma others_not_started c i j p ws :
  inv c ->
  row_locks c = ∅ \/ row_locks c = {[ u := i ]} ->
  j <> i ->
  sessions c !! j = Some (running p ws) ->
  exists r g,
    args !! j = Some (r, g) /\ p = deduct_user_coins u n r g /\ ws = [].
Proof.
  intros Hinv Hl Hne Hj.
  destruct (inv_sessions c Hinv j p ws Hj)
    as (r & g & Ha & _ & _ & _ & [Hheld|[-> ->]]).
  - exfalso. destruct Hl as [Hl|Hl]; rewrite Hl in Hheld.
    + rewrite lookup_empty in Hheld. discriminate.
    + rewrite lookup_singleton_eq in Hheld. congruence.
  - exists r, g. repeat split. exact Ha.
Qed.

Lemma not_started_inv j r g d (locks : gmap N nat) :
  args !! j = Some (r, g) ->
  exists r' g',
    args !! j = Some (r', g')
    /\ locks_only u (deduct_user_coins u n r g)
    /\ ends_within 3 (deduct_user_coins u n r g)
    /\ run (deduct_user_coins u n r g) (apply_effects [] d)
       = run (deduct_user_coins u n r' g') d
    /\ (locks !! u = Some j
        \/ (deduct_user_coins u n r g = deduct_user_coins u n r' g'
            /\ @nil effect = [])).
Proof.
  intros Ha. exists r, g. split; [exact Ha|].
  destruct (deduct_user_coins_select u n r g Hn) as (k & Hk & Hl & He).
  split; [rewrite Hk; split; [right; reflexivity|exact Hl]|].
  split; [rewrite Hk; intros x; exact (He x)|].
  split; [reflexivity|]. right. split; reflexivity.
Qed.

(** Session [i] executes a statement and goes on, holding the lock. *)
Lemma debits_inv_advance c i p ws p' ws' r g :
  inv c ->
  row_locks c = ∅ \/ row_locks c = {[ u := i ]} ->
  sessions c !! i = Some (running p ws) ->
  args !! i = Some (r, g) ->
  locks_only u p' ->
  ends_within 3 p' ->
  run p' (apply_effects ws' (committed c))
  = run (deduct_user_coins u n r g) (committed c) ->
  inv {| committed := committed c;
                row_locks := {[ u := i ]};
                sessions := <[i := running p' ws']> (sessions c) |}.
Proof.
  intros Hinv Hl Hi Ha Hlo He Hrun.
  assert (Hlt : (i < length (sessions c))%nat)
    by (eapply lookup_lt_Some, Hi).
  pose proof (successes_insert c i _ (running p' ws') Hi) as Hs.
  pose proof (failures_insert c i _ (running p' ws') Hi) as Hf.
  cbn in Hs, Hf. rewrite !Nat.add_0_r in Hs, Hf.
  split; unfold successes, failures; cbn [committed row_locks sessions];
    rewrite ?Hs, ?Hf.
  - rewrite length_insert. apply (inv_length c Hinv).
  - right. exists i, p', ws'. split; [reflexivity|].
    apply list_lookup_insert_eq, Hlt.
  - intros j q wq Hj. destruct (decide (j = i)) as [->|Hne].
    + rewrite list_lookup_insert_eq in Hj by exact Hlt.
      injection Hj as <- <-. exists r, g.
      repeat (split; [assumption|]). left. apply lookup_singleton_eq.
    + rewrite list_lookup_insert_ne in Hj by congruence.
      destruct (others_not_started c i j q wq Hinv Hl Hne Hj)
        as (r' & g' & Ha' & -> & ->).
      apply not_started_inv, Ha'.
  - apply (inv_profiles c Hinv).
  - apply (inv_non_negative c Hinv).
  - intros j e Hj. destruct (decide (j = i)) as [->|Hne].
    + rewrite list_lookup_insert_eq in Hj by exact Hlt. discriminate.
    + rewrite list_lookup_insert_ne in Hj by congruence.
      eapply (inv_failed c Hinv), Hj.
  - apply (inv_short c Hinv).
  - apply (inv_log c Hinv).
Qed.

Lemma balance_after_S k : bal (S k) = bal k - n.
Proof. unfold bal. lia. Qed.

(** The holder of the lock commits a debit. *)
Lemma debits_inv_commit c i p ws r g :
  inv c ->
  row_locks c = {[ u := i ]} ->
  sessions c !! i = Some (running p ws) ->
  args !! i = Some (r, g) ->
  n <= bal (successes c) ->
  let b := bal (successes c) in
  inv
    (finish i (inr (b - n))
       (posted u (b - n) (deduction_row u n r g (b - n)) (committed c)) c).
Proof.
  intros Hinv Hl Hi Ha Hle b.
  assert (Hlt : (i < length (sessions c))%nat)
    by (eapply lookup_lt_Some, Hi).
  pose proof (successes_insert c i _ (finished (inr (b - n))) Hi) as Hs.
  pose proof (failures_insert c i _ (finished (inr (b - n))) Hi) as Hf.
  cbn in Hs, Hf. rewrite !Nat.add_0_r in Hf. rewrite Nat.add_0_r in Hs.
  rewrite Nat.add_1_r in Hs.
  split; unfold finish, successes, failures;
    cbn [committed row_locks sessions]; rewrite ?Hs, ?Hf, ?Hl.
  - rewrite length_insert. apply (inv_length c Hinv).
  - left. apply release_singleton.
  - intros j q wq Hj. destruct (decide (j = i)) as [->|Hne].
    + rewrite list_lookup_insert_eq in Hj by exact Hlt. discriminate.
    + rewrite list_lookup_insert_ne in Hj by congruence.
      destruct (others_not_started c i j q wq Hinv (or_intror Hl) Hne Hj)
        as (r' & g' & Ha' & -> & ->).
      apply not_started_inv, Ha'.
  - unfold posted. cbn [profiles]. rewrite (inv_profiles c Hinv).
    rewrite insert_insert_eq, balance_after_S. reflexivity.
  - rewrite balance_after_S. lia.
  - intros j e Hj. destruct (decide (j = i)) as [->|Hne].
    + rewrite list_lookup_insert_eq in Hj by exact Hlt. discriminate.
    + rewrite list_lookup_insert_ne in Hj by congruence.
      eapply (inv_failed c Hinv), Hj.
  - intros Hpos. apply (inv_short c Hinv) in Hpos. lia.
  - destruct (inv_log c Hinv) as (rows & Hlog & Hbal & Hrows).
    exists (rows ++ [deduction_row u n r g (b - n)]).
    unfold posted. cbn [coin_transactions]. rewrite Hlog, app_assoc.
    split; [reflexivity|]. split.
    + rewrite seq_S, !map_app, Hbal. cbn [map]. f_equal.
      change (1 + successes c)%nat with (S (successes c)).
      rewrite balance_after_S. reflexivity.
    + apply Forall_app. split; [exact Hrows|].
      constructor; [|constructor]. repeat split.
Qed.

(** The holder of the lock rolls back for want of coins. *)
Lemma debits_inv_rollback c i p ws :
  inv c ->
  row_locks c = {[ u := i ]} ->
  sessions c !! i = Some (running p ws) ->
  bal (successes c) < n ->
  inv
    (finish i (inl (insufficient_coins (bal (successes c)) n))
       (committed c) c).
Proof.
  intros Hinv Hl Hi Hlow.
  assert (Hlt : (i < length (sessions c))%nat)
    by (eapply lookup_lt_Some, Hi).
  remember (bal (successes c)) as b eqn:Hb.
  pose proof (successes_insert c i _
                (finished (inl (insufficient_coins b n))) Hi) as Hs.
  pose proof (failures_insert c i _
                (finished (inl (insufficient_coins b n))) Hi) as Hf.
  cbn in Hs, Hf. rewrite !Nat.add_0_r in Hs. rewrite Nat.add_0_r in Hf.
  split; unfold finish, successes, failures;
    cbn [committed row_locks sessions]; rewrite ?Hs, ?Hf, ?Hl.
  - rewrite length_insert. apply (inv_length c Hinv).
  - left. apply release_singleton.
  - intros j q wq Hj. destruct (decide (j = i)) as [->|Hne].
    + rewrite list_lookup_insert_eq in Hj by exact Hlt. discriminate.
    + rewrite list_lookup_insert_ne in Hj by congruence.
      destruct (others_not_started c i j q wq Hinv (or_intror Hl) Hne Hj)
        as (r' & g' & Ha' & -> & ->).
      apply not_started_inv, Ha'.
  - apply (inv_profiles c Hinv).
  - apply (inv_non_negative c Hinv).
  - intros j e Hj. destruct (decide (j = i)) as [->|Hne].
    + rewrite list_lookup_insert_eq in Hj by exact Hlt.
      injection Hj as <-. exists b. split; [reflexivity|exact Hlow].
    + rewrite list_lookup_insert_ne in Hj by congruence.
      eapply (inv_failed c Hinv), Hj.
  - intros _. rewrite <- Hb. exact Hlow.
  - apply (inv_log c Hinv).
Qed.

(** What the rest of a session yields is what its body yields on the
    committed database: an insufficient-coins exception or the new
    balance. *)
Lemma rest_raises c p ws r g e d :
  inv c ->
  run p (apply_effects ws (committed c))
  = run (deduct_user_coins u n r g) (committed c) ->
  run p (apply_effects ws (committed c)) = (inl e, d) ->
  bal (successes c) < n
  /\ e = insufficient_coins (bal (successes c)) n.
Proof.
  intros Hinv Hrun He. destruct (inv_balance c Hinv) as [Hb Hr].
  rewrite Hrun, (run_deduct_user_coins_existing _ _ _ _ _ _ Hb Hr Hn) in He.
  case_bool_decide; [|discriminate]. injection He as <- _.
  split; [assumption|reflexivity].
Qed.

Lemma rest_returns c p ws r g v d :
  inv c ->
  run p (apply_effects ws (committed c))
  = run (deduct_user_coins u n r g) (committed c) ->
  run p (apply_effects ws (committed c)) = (inr v, d) ->
  let b := bal (successes c) in
  n <= b /\ v = b - n
  /\ d = posted u (b - n) (deduction_row u n r g (b - n)) (committed c).
Proof.
  intros Hinv Hrun He. destruct (inv_balance c Hinv) as [Hb Hr].
  rewrite Hrun, (run_deduct_user_coins_existing _ _ _ _ _ _ Hb Hr Hn) in He.
  case_bool_decide; [discriminate|]. injection He as <- <-.
  cbn. repeat split. lia.
Qed.

Theorem debits_inv_step i c c' :
  inv c -> step i c = Some c' -> inv c'.
Proof.
  intros Hinv Hstep. unfold step in Hstep.
  destruct (sessions c !! i) as [[p ws|res]|] eqn:Hi; try discriminate.
  destruct (inv_sessions c Hinv i p ws Hi)
    as (r & g & Ha & Hlo & He & Hrun & Hown).
  destruct (inv_balance c Hinv) as [Hb Hr].
  destruct (decide (row_locks c !! u = Some i)) as [Hheld|Hfree].
  - (* the holder of the lock *)
    assert (Hl : row_locks c = {[ u := i ]}).
    { destruct (inv_locks c Hinv) as [E|(j & q & wq & E & _)];
        rewrite E in Hheld.
      - rewrite lookup_empty in Hheld. discriminate.
      - rewrite lookup_singleton_eq in Hheld. congruence. }
    destruct p as [v|e|X s k].
    + injection Hstep as <-.
      destruct (rest_returns c _ _ r g v _ Hinv Hrun eq_refl)
        as (Hle & -> & ->).
      eapply debits_inv_commit; eassumption.
    + injection Hstep as <-.
      destruct (rest_raises c _ _ r g e _ Hinv Hrun eq_refl) as (Hlow & ->).
      eapply debits_inv_rollback; eassumption.
    + destruct Hlo as [Hs Hk].
      rewrite (acquire_held i s _ _ u Hs Hheld) in Hstep.
      destruct (exec_stmt s (apply_effects ws (committed c)))
        as [e|[x ws']] eqn:Hex.
      * injection Hstep as <-.
        assert (Hraise : run (Exec s k) (apply_effects ws (committed c))
                         = (inl e, apply_effects ws (committed c))).
        { cbn [run]. rewrite Hex. reflexivity. }
        destruct (rest_raises c _ _ r g e _ Hinv Hrun Hraise)
          as (Hlow & ->).
        eapply debits_inv_rollback; eassumption.
      * injection Hstep as <-. rewrite Hl.
        eapply debits_inv_advance; try eassumption.
        -- right. exact Hl.
        -- apply Hk.
        -- apply ends_within_S, He.
        -- rewrite <- Hrun. cbn [run]. rewrite Hex, apply_effects_app.
           reflexivity.
  - (* a session that has not started *)
    destruct Hown as [Hheld|[-> ->]]; [contradiction|].
    destruct (deduct_user_coins_select u n r g Hn) as (k & Hk & Hlk & Hek).
    rewrite Hk in Hstep, Hrun. cbn [apply_effects foldl] in Hstep.
    unfold acquire in Hstep. cbn [locked_row exec_stmt] in Hstep.
    rewrite Hb in Hstep.
    destruct (inv_locks c Hinv) as [E|(j & q & wq & E & Hj)];
      rewrite E in Hstep.
    + rewrite lookup_empty in Hstep. injection Hstep as <-.
      rewrite insert_empty.
      eapply debits_inv_advance; try eassumption.
      * left. exact E.
      * apply Hlk.
      * apply ends_within_S, Hek.
      * rewrite Hk. cbn [run exec_stmt]. rewrite Hb. reflexivity.
    + rewrite lookup_singleton_eq in Hstep.
      destruct (decide (j = i)) as [->|Hne]; [|discriminate].
      rewrite E, lookup_singleton_eq in Hfree. congruence.
Qed.

Lemma debits_inv_run_schedule schedule : forall c,
  inv c -> inv (run_schedule schedule c).
Proof.
  induction schedule as [|i rest IH]; intros c Hinv; cbn; [assumption|].
  apply IH. destruct (step i c) as [c'|] eqn:Hstep; cbn; [|assumption].
  eapply debits_inv_step; eassumption.
Qed.

(** *** Every schedule can be completed *)

(** The holder of the lock is not made to wait: it finishes or goes on to
    a shorter rest. *)
Lemma holder_step c i p ws :
  inv c ->
  row_locks c = {[ u := i ]} ->
  sessions c !! i = Some (running p ws) ->
  exists c1,
    step i c = Some c1
    /\ ((exists r, sessions c1 = <[i := finished r]> (sessions c)
                   /\ row_locks c1 = ∅)
        \/ (exists p' ws',
               sessions c1 = <[i := running p' ws']> (sessions c)
               /\ row_locks c1 = {[ u := i ]}
               /\ ~ ends_within 0 p
               /\ forall m, ends_within (S m) p -> ends_within m p')).
Proof.
  intros Hinv Hl Hi.
  destruct (inv_sessions c Hinv i p ws Hi)
    as (r & g & Ha & Hlo & He & Hrun & Hown).
  assert (Hheld : row_locks c !! u = Some i)
    by (rewrite Hl; apply lookup_singleton_eq).
  unfold step. rewrite Hi.
  destruct p as [v|e|X s k].
  - eexists. split; [reflexivity|]. left. eexists. cbn.
    rewrite Hl. split; [reflexivity|apply release_singleton].
  - eexists. split; [reflexivity|]. left. eexists. cbn.
    rewrite Hl. split; [reflexivity|apply release_singleton].
  - destruct Hlo as [Hs Hk].
    rewrite (acquire_held i s _ _ u Hs Hheld).
    destruct (exec_stmt s (apply_effects ws (committed c)))
      as [e|[x ws']] eqn:Hex.
    + eexists. split; [reflexivity|]. left. eexists. cbn.
      rewrite Hl. split; [reflexivity|apply release_singleton].
    + eexists. split; [reflexivity|]. right. exists (k x), (ws ++ ws').
      cbn. split; [reflexivity|]. split; [exact Hl|].
      split; [intros []|]. intros m Hm. apply Hm.
Qed.

Lemma holder_finishes m : forall c i p ws,
  inv c ->
  row_locks c = {[ u := i ]} ->
  sessions c !! i = Some (running p ws) ->
  ends_within m p ->
  exists r,
    sessions (run_schedule (replicate (S m) i) c)
    = <[i := finished r]> (sessions c)
    /\ row_locks (run_schedule (replicate (S m) i) c) = ∅.
Proof.
  induction m as [|m IH]; intros c i p ws Hinv Hl Hi Hm.
  - destruct (holder_step c i p ws Hinv Hl Hi)
      as (c1 & Hstep & [(r & Hs & Hl1)|(p' & ws' & _ & _ & H0 & _)]).
    + exists r. cbn. rewrite Hstep. cbn. split; assumption.
    + contradiction.
  - destruct (holder_step c i p ws Hinv Hl Hi)
      as (c1 & Hstep & [(r & Hs & Hl1)|(p' & ws' & Hs & Hl1 & _ & Hp')]).
    + exists r.
      change (replicate (S (S m)) i) with (i :: replicate (S m) i).
      rewrite (run_schedule_cons _ _ _ _ Hstep).
      assert (Hfin : sessions c1 !! i = Some (finished r)).
      { rewrite Hs. apply list_lookup_insert_eq.
        eapply lookup_lt_Some, Hi. }
      rewrite (run_schedule_finished i (S m) c1 r Hfin).
      split; assumption.
    + assert (Hinv1 : inv c1)
        by (eapply debits_inv_step; eassumption).
      assert (Hi1 : sessions c1 !! i = Some (running p' ws')).
      { rewrite Hs. apply list_lookup_insert_eq.
        eapply lookup_lt_Some, Hi. }
      destruct (IH c1 i p' ws' Hinv1 Hl1 Hi1) as (r & Hr & Hlr).
      { apply Hp', Hm. }
      exists r.
      change (replicate (S (S m)) i) with (i :: replicate (S m) i).
      rewrite (run_schedule_cons _ _ _ _ Hstep).
      rewrite Hr, Hs, list_insert_insert_eq. split; [reflexivity|exact Hlr].
Qed.

(** A session that has not started, given the free lock, runs to its end
    in four steps. *)
Lemma session_finishes c j p ws :
  inv c ->
  row_locks c = ∅ ->
  sessions c !! j = Some (running p ws) ->
  exists r,
    sessions (run_schedule (replicate 4 j) c)
    = <[j := finished r]> (sessions c)
    /\ row_locks (run_schedule (replicate 4 j) c) = ∅.
Proof.
  intros Hinv Hl Hj.
  destruct (inv_sessions c Hinv j p ws Hj)
    as (r & g & Ha & _ & _ & _ & [Hheld|[-> ->]]).
  { rewrite Hl, lookup_empty in Hheld. discriminate. }
  destruct (inv_balance c Hinv) as [Hb _].
  destruct (deduct_user_coins_select u n r g Hn) as (k & Hk & _ & Hek).
  rewrite Hk in Hj.
  assert (Hstep : step j c
                  = Some {| committed := committed c;
                            row_locks := {[ u := j ]};
                            sessions :=
                              <[j := running
                                       (k (Some (bal
                                                   (successes c))))
                                       []]> (sessions c) |}).
  { unfold step. rewrite Hj. cbn [apply_effects foldl].
    unfold acquire. cbn [locked_row exec_stmt].
    rewrite Hb, Hl, lookup_empty, insert_empty. reflexivity. }
  change (replicate 4 j) with (j :: replicate 3 j).
  rewrite (run_schedule_cons _ _ _ _ Hstep).
  edestruct (holder_finishes 2) as (res & Hs & Hlr);
    [eapply debits_inv_step; [exact Hinv|exact Hstep] | | | apply Hek |].
  - reflexivity.
  - cbn [sessions]. apply list_lookup_insert_eq.
    eapply lookup_lt_Some, Hj.
  - exists res. rewrite Hs, Hlr. cbn [sessions].
    rewrite list_insert_insert_eq. split; reflexivity.
Qed.

Lemma complete_from m : forall j c,
  inv c ->
  row_locks c = ∅ ->
  (j + m = length args)%nat ->
  (forall i, (i < j)%nat -> exists r, sessions c !! i = Some (finished r)) ->
  exists more, all_finished (run_schedule more c).
Proof.
  induction m as [|m IH]; intros j c Hinv Hl Hlen Hdone.
  - exists []. cbn. apply Forall_lookup. intros i s Hi.
    destruct (Hdone i) as (r & Hr).
    + apply lookup_lt_Some in Hi. rewrite (inv_length c Hinv) in Hi. lia.
    + rewrite Hr in Hi. injection Hi as <-. reflexivity.
  - destruct (lookup_lt_is_Some_2 (sessions c) j) as [s Hj].
    { rewrite (inv_length c Hinv). lia. }
    destruct s as [p ws|r].
    + destruct (session_finishes c j p ws Hinv Hl Hj) as (r & Hs & Hlr).
      destruct (IH (S j) (run_schedule (replicate 4 j) c)) as (more & Hm).
      * apply debits_inv_run_schedule, Hinv.
      * exact Hlr.
      * lia.
      * intros i Hi. rewrite Hs. destruct (decide (i = j)) as [->|Hne].
        -- exists r. apply list_lookup_insert_eq.
           eapply lookup_lt_Some, Hj.
        -- rewrite list_lookup_insert_ne by congruence. apply Hdone. lia.
      * exists (replicate 4 j ++ more). rewrite run_schedule_app. exact Hm.
    + apply (IH (S j) c Hinv Hl); [lia|].
      intros i Hi. destruct (decide (i = j)) as [->|Hne].
      * exists r. exact Hj.
      * apply Hdone. lia.
Qed.

Theorem debits_complete c :
  inv c -> exists more, all_finished (run_schedule more c).
Proof.
  intros Hinv.
  destruct (inv_locks c Hinv) as [Hl|(i & p & ws & Hl & Hi)].
  - apply (complete_from (length args) 0 c Hinv Hl); [lia|].
    intros i Hi. lia.
  - destruct (inv_sessions c Hinv i p ws Hi)
      as (r & g & _ & _ & He & _ & _).
    destruct (holder_finishes 3 c i p ws Hinv Hl Hi He) as (res & _ & Hlr).
    destruct (complete_from (length args) 0
                (run_schedule (replicate 4 i) c)) as (more & Hm).
    + apply debits_inv_run_schedule, Hinv.
    + exact Hlr.
    + lia.
    + intros j Hj. lia.
    + exists (replicate 4 i ++ more). rewrite run_schedule_app. exact Hm.
Qed.

(** *** When every session has finished *)

Lemma all_finished_count c :
  all_finished c ->
  (successes c + failures c = length (sessions c))%nat.
Proof.
  unfold all_finished, successes, failures.
  induction (sessions c) as [|s ss IH]; intros H; [reflexivity|].
  apply Forall_cons in H as [Hs H]. specialize (IH H).
  rewrite !filter_cons.
  destruct s as [p ws|[e|v]]; cbn in Hs; try discriminate;
    repeat case_decide; cbn in *; try congruence; lia.
Qed.

Theorem debits_count c :
  inv c ->
  all_finished c ->
  Z.of_nat (successes c) = Z.min (Z.of_nat (length args)) (B / n)
  /\ (successes c + failures c = length args)%nat.
Proof.
  intros Hinv Hfin.
  pose proof (all_finished_count c Hfin) as Hcount.
  rewrite (inv_length c Hinv) in Hcount. split; [|exact Hcount].
  pose proof (inv_non_negative c Hinv) as Hnn.
  pose proof (inv_short c Hinv) as Hshort.
  unfold bal in *.
  destruct (failures c) as [|f] eqn:Hf.
  - rewrite Nat.add_0_r in Hcount. rewrite Hcount in *.
    assert (Z.of_nat (length args) <= B / n)
      by (apply Z.div_le_lower_bound; lia).
    lia.
  - assert (Hlow : B - n * Z.of_nat (successes c) < n) by (apply Hshort; lia).
    assert (Hdiv : B / n = Z.of_nat (successes c)).
    { symmetry.
      apply (Z.div_unique_pos B n _ (B - n * Z.of_nat (successes c))); lia. }
    rewrite Hdiv. lia.
Qed.
End Debits.

Lemma all_finished_forallb c :
  forallb is_finished (sessions c) = true -> all_finished c.
Proof.
  unfold all_finished. induction (sessions c) as [|s ss IH]; cbn; intros H.
  - constructor.
  - apply andb_prop in H as [Hs H]. constructor; [exact Hs|apply IH, H].
Defined.

(** C9, as the code has it.  N debits of the same amount n > 0 are started
    concurrently on an account with INTEGER balance B >= 0, and their
    statements are interleaved by an arbitrary schedule.  At every point of
    the schedule the committed balance is B - n * k >= 0 for the number k of
    debits that have succeeded so far, the log has gained k entries whose
    resulting balances are B - n, B - 2n, ..., B - k n in this order (each
    debit has acted on the balance its predecessor left), and every debit
    that has failed has failed with the insufficient-coins exception.  When
    all N have finished, exactly min (N, floor (B / n)) have succeeded --
    floor (B / n) whenever N * n > B -- and all others have failed.  Every
    schedule can be continued until all have finished. *)
Theorem concurrent_debits (u : uuid) (B n : Z) (d0 : db)
    (args : list (string * option string)) (schedule : list nat) :
  profiles d0 !! u = Some B -> 0 <= B <= int4_max -> 0 < n ->
  let c := run_schedule schedule (start d0 (debits u n args)) in
  let k := successes c in
  profiles (committed c) = <[u := B - n * Z.of_nat k]> (profiles d0)
  /\ 0 <= B - n * Z.of_nat k
  /\ (exists rows,
        coin_transactions (committed c) = coin_transactions d0 ++ rows
        /\ map resulting_balance_of rows
           = map (fun j => Some (B - n * Z.of_nat j)) (seq 1 k))
  /\ (forall i e, sessions c !! i = Some (finished (inl e)) ->
                  error_kind e = InsufficientBalance)
  /\ (all_finished c ->
      Z.of_nat k = Z.min (Z.of_nat (length args)) (B / n)
      /\ (B < n * Z.of_nat (length args) -> Z.of_nat k = B / n)
      /\ (k + failures c = length args)%nat)
  /\ (exists more,
        all_finished
          (run_schedule (schedule ++ more) (start d0 (debits u n args)))).
Proof.
  intros Hrow HB Hn c k.
  assert (Hinv : debits_inv u B n d0 args c).
  { apply debits_inv_run_schedule; [assumption..|].
    apply debits_inv_start; assumption. }
  split; [apply (inv_profiles c Hinv)|].
  split; [apply (inv_non_negative c Hinv)|].
  split.
  { destruct (inv_log c Hinv) as (rows & Hlog & Hbal & _).
    exists rows. split; assumption. }
  split.
  { intros i e Hi. destruct (inv_failed c Hinv i e Hi) as (b & -> & _).
    reflexivity. }
  split.
  { intros Hfin.
    destruct (debits_count u B n d0 args Hn c Hinv Hfin) as [Hmin Hsum].
    split; [exact Hmin|]. split; [|exact Hsum].
    intros Hmore. fold k in Hmin. rewrite Hmin.
    assert (B / n < Z.of_nat (length args))
      by (apply Z.div_lt_upper_bound; lia).
    lia. }
  destruct (debits_complete u B n d0 args HB Hn c Hinv) as (more & Hm).
  exists more. rewrite run_schedule_app. exact Hm.
Qed.

Lemma concurrent_debits_witness :
  let c := run_schedule [0; 1; 2; 1; 0; 0; 2; 0; 1; 2; 1; 1; 1; 2; 2; 2]%nat
             (start db10 (debits acct 4
                            [("a", None); ("b", None); ("c", Some "g")])) in
  all_finished c
  /\ Z.of_nat (successes c) = 10 / 4
  /\ (successes c + failures c = 3)%nat
  /\ profiles (committed c) = <[acct := 10 - 4 * 2]> (profiles db10).
Proof.
  intros c.
  pose proof (concurrent_debits acct 10 4 db10
                [("a", None); ("b", None); ("c", Some "g")]
                [0; 1; 2; 1; 0; 0; 2; 0; 1; 2; 1; 1; 1; 2; 2; 2]%nat) as H.
  destruct H as (Hp & _ & _ & _ & Hfin & _).
  - reflexivity.
  - unfold int4_max. lia.
  - lia.
  - assert (Hall : all_finished c)
      by (apply all_finished_forallb; vm_compute; reflexivity).
    split; [exact Hall|].
    destruct (Hfin Hall) as (_ & Hk & Hsum).
    split; [apply Hk; vm_compute; reflexivity|].
    split; [exact Hsum|]. exact Hp.
Defined.

(** C9 as stated fails: two debits of 1 on a balance of 10 are both valid,
    run concurrently, and both succeed; floor (10 / 1) = 10 of them do
    not. *)
Lemma two_debits_of_ten :
  let c := run_schedule [0; 1; 0; 1; 0; 1; 0; 1; 1; 1; 1]%nat
             (start db10 (debits acct 1 [("a", None); ("b", None)])) in
  all_finished c
  /\ successes c = 2%nat
  /\ failures c = 0%nat
  /\ 10 / 1 = 10
  /\ Z.of_nat (successes c) <> 10 / 1.
Proof.
  cbv zeta.
  split; [apply all_finished_forallb; vm_compute; reflexivity|].
  vm_compute. repeat split. discriminate.
Qed.

(** * More on single calls and sequences *)

Lemma exec_call_outcome c d :
  exec c d
  = ((call_outcome c (profiles d !! account_of c)).1,
     write_outcome (account_of c)
       (call_outcome c (profiles d !! account_of c)).2 d).
Proof.
  destruct c as [u a r g|u a r]; cbn [exec account_of call_outcome].
  - rewrite debit_run, run_deduct_user_coins.
    ledger_cases; reflexivity.
  - rewrite credit_run, run_add_user_coins.
    ledger_cases; reflexivity.
Qed.

Lemma signed_amount_deduction_row u a r g v :
  signed_amount (deduction_row u a r g v) = - a.
Proof. reflexivity. Qed.

Lemma signed_amount_addition_row u a r v :
  signed_amount (addition_row u a r v) = a.
Proof. reflexivity. Qed.

(** A written row is a row of the account, and the account exists. *)
Lemma call_outcome_writes c coins v t :
  (call_outcome c coins).2 = Some (v, t) ->
  user_id t = account_of c
  /\ is_Some coins
  /\ (call_outcome c coins).1 = inr v
  /\ resulting_balance_of t = Some v
  /\ 0 <= v <= int4_max
  /\ (exists a, amount_of t = Some a /\ 0 < a)
  /\ is_Some (kind_of t)
  /\ (forall b, coins = Some b -> v = b + signed_amount t).
Proof.
  destruct c as [u a r g|u a r]; cbn [call_outcome account_of];
    repeat first [case_bool_decide | case_decide | destruct coins as [b|] ];
    cbn [snd fst]; intros [= <- <-];
    (split; [reflexivity|]); (split; [eauto|]); (split; [reflexivity|]);
    (split; [reflexivity|]);
    (split; [unfold is_int4, int4_min, int4_max in *; lia|]);
    (split; [exists a; split; [reflexivity|lia]|]);
    (split; [eexists; reflexivity|]);
    intros b' [= <-];
    rewrite ?signed_amount_deduction_row, ?signed_amount_addition_row; lia.
Qed.

Lemma call_outcome_fails c coins :
  (call_outcome c coins).2 = None -> exists e, (call_outcome c coins).1 = inl e.
Proof.
  destruct c as [u a r g|u a r]; cbn [call_outcome];
    repeat first [case_bool_decide | case_decide | destruct coins as [b|] ];
    cbn [snd fst]; intros Hw; try discriminate; eauto.
Qed.

(** ** Calls on a sequence *)

Lemma exec_profiles_other c d u' :
  account_of c <> u' -> profiles (exec c d).2 !! u' = profiles d !! u'.
Proof.
  intros Hne. rewrite exec_call_outcome. cbn [snd].
  destruct (call_outcome c (profiles d !! account_of c)).2 as [[v t]|];
    cbn [write_outcome posted profiles]; [|reflexivity].
  apply lookup_insert_ne, Hne.
Qed.

Lemma exec_account_log_other c d u' :
  account_of c <> u' -> account_log u' (exec c d).2 = account_log u' d.
Proof.
  intros Hne. rewrite exec_call_outcome. cbn [snd].
  destruct (call_outcome c (profiles d !! account_of c)).2 as [[v t]|] eqn:E;
    cbn [write_outcome]; [|reflexivity].
  apply call_outcome_writes in E as (Ht & _).
  rewrite account_log_posted, decide_False by congruence. reflexivity.
Qed.

Lemma exec_dom c d : dom (profiles (exec c d).2) = dom (profiles d).
Proof.
  rewrite exec_call_outcome. cbn [snd].
  destruct (call_outcome c (profiles d !! account_of c)).2 as [[v t]|] eqn:E;
    cbn [write_outcome posted profiles]; [|reflexivity].
  apply call_outcome_writes in E as (_ & Hex & _).
  apply dom_insert_lookup_L, Hex.
Qed.

Lemma run_calls_cons c calls d :
  run_calls (c :: calls) d = run_calls calls (exec c d).2.
Proof. reflexivity. Qed.

(** X1. Whatever the sequence of debits and credits, every balance stays
    an INTEGER between 0 and 2147483647 after every call. *)
Theorem balances_stay_integer (calls : list ledger_call) (d : db) :
  well_typed d -> Forall well_typed (states calls d).
Proof.
  revert d. induction calls as [|c rest IH]; intros d Hd; cbn [states].
  - constructor.
  - constructor; [|apply IH]; apply exec_well_typed, Hd.
Qed.

Lemma balances_stay_integer_witness :
  Forall well_typed
    (states [Credit acct 2147483647 "reward";
             Debit acct 500 "game_unlock" None;
             Debit acct 1 "game_unlock" None] db500).
Proof.
  apply (balances_stay_integer
           [Credit acct 2147483647 "reward";
            Debit acct 500 "game_unlock" None;
            Debit acct 1 "game_unlock" None] db500).
  exact well_typed_db500.
Defined.

(** X2. A call leaves every other account alone: its balance and its log
    entries are what they were, whether the call succeeds or fails. *)
Theorem call_leaves_other_accounts (c : ledger_call) (d : db) (u' : uuid) :
  account_of c <> u' ->
  profiles (exec c d).2 !! u' = profiles d !! u'
  /\ account_log u' (exec c d).2 = account_log u' d.
Proof.
  intros Hne. split.
  - apply exec_profiles_other, Hne.
  - apply exec_account_log_other, Hne.
Qed.

Lemma call_leaves_other_accounts_witness :
  profiles (exec (Debit acct 200 "game_unlock" None) db_two).2 !! ghost
  = profiles db_two !! ghost
  /\ account_log ghost (exec (Debit acct 200 "game_unlock" None) db_two).2
     = account_log ghost db_two.
Proof.
  apply (call_leaves_other_accounts (Debit acct 200 "game_unlock" None)
           db_two ghost).
  cbn. discriminate.
Defined.

(** X3. No sequence of debits and credits creates or deletes an account:
    the rows of [profiles] stay the same, a call on a missing account does
    not create it. *)
Theorem accounts_never_change (calls : list ledger_call) (d : db) :
  dom (profiles (run_calls calls d)) = dom (profiles d).
Proof.
  revert d. induction calls as [|c rest IH]; intros d; [reflexivity|].
  rewrite run_calls_cons, IH. apply exec_dom.
Qed.

(** X4. The log only grows, by exactly one row for each call that
    succeeds: after any sequence of calls the old log is still there,
    unchanged and in front, followed by as many rows as calls have
    returned a balance. *)
Theorem log_append_only (calls : list ledger_call) (d : db) :
  exists rows,
    coin_transactions (run_calls calls d) = coin_transactions d ++ rows
    /\ length rows
       = length (filter (fun r => is_inr r = true) (results calls d)).
Proof.
  revert d. induction calls as [|c rest IH]; intros d.
  - exists []. rewrite app_nil_r. split; reflexivity.
  - rewrite run_calls_cons. cbn [results].
    destruct (IH (exec c d).2) as (rows & Hlog & Hlen).
    rewrite Hlog, filter_cons. clear Hlog IH.
    destruct (exec c d) as [r d'] eqn:Ex. cbn [fst snd] in *.
    rewrite exec_call_outcome in Ex. injection Ex as Hr Hd.
    destruct (call_outcome c (profiles d !! account_of c)).2 as [[v t]|] eqn:E.
    + apply call_outcome_writes in E as (_ & _ & Hv & _).
      rewrite Hv in Hr. subst r d'.
      exists (t :: rows). cbn [write_outcome posted coin_transactions].
      rewrite <- app_assoc. split; [reflexivity|].
      rewrite decide_True by reflexivity. cbn [length]. rewrite Hlen.
      reflexivity.
    + apply call_outcome_fails in E as (e & He).
      rewrite He in Hr. subst r d'.
      exists rows. cbn [write_outcome]. split; [reflexivity|].
      rewrite decide_False by (cbn; discriminate). exact Hlen.
Qed.

Lemma exec_own_account c d :
  profiles (exec c d).2 !! account_of c
  = match (call_outcome c (profiles d !! account_of c)).2 with
    | Some (v, _) => Some v
    | None => profiles d !! account_of c
    end
  /\ account_log (account_of c) (exec c d).2
     = account_log (account_of c) d
       ++ match (call_outcome c (profiles d !! account_of c)).2 with
          | Some (_, t) => [t]
          | None => []
          end.
Proof.
  rewrite exec_call_outcome. cbn [snd].
  destruct (call_outcome c (profiles d !! account_of c)).2 as [[v t]|] eqn:E;
    cbn [write_outcome].
  - apply call_outcome_writes in E as (Ht & _).
    rewrite account_log_posted, decide_True by exact Ht.
    unfold posted. cbn [profiles]. rewrite lookup_insert_eq.
    split; reflexivity.
  - rewrite app_nil_r. split; reflexivity.
Qed.

(** X5. After any sequence of calls, the balance of an account is its
    balance before plus the credits less the debits that the sequence has
    added to its log; the account's earlier log entries are unchanged. *)
Theorem balance_is_start_plus_net (calls : list ledger_call) (d : db)
    (u : uuid) (B0 : Z) :
  profiles d !! u = Some B0 ->
  exists rows B,
    account_log u (run_calls calls d) = account_log u d ++ rows
    /\ profiles (run_calls calls d) !! u = Some B
    /\ B = B0 + net_change rows.
Proof.
  revert d B0. induction calls as [|c rest IH]; intros d B0 Hu.
  - exists [], B0. rewrite app_nil_r. cbn. split; [reflexivity|].
    split; [exact Hu|lia].
  - rewrite run_calls_cons. destruct (decide (account_of c = u)) as [<-|Hne].
    + destruct (exec_own_account c d) as [Hp Hl].
      destruct (call_outcome c (profiles d !! account_of c)).2
        as [[v t]|] eqn:E.
      * destruct (IH _ v Hp) as (rows & B & Hlog & HB & Hnet).
        apply call_outcome_writes in E as (_ & _ & _ & _ & _ & _ & _ & Hv).
        exists (t :: rows), B. rewrite Hlog, Hl, <- app_assoc.
        split; [reflexivity|]. split; [exact HB|].
        cbn [net_change foldr]. fold (net_change rows).
        rewrite (Hv B0 Hu) in Hnet. lia.
      * rewrite Hu in Hp. destruct (IH _ B0 Hp) as (rows & B & Hlog & HB & Hnet).
        exists rows, B. rewrite Hlog, Hl, app_nil_r. auto.
    + destruct (IH (exec c d).2 B0) as (rows & B & Hlog & HB & Hnet).
      { rewrite exec_profiles_other by exact Hne. exact Hu. }
      exists rows, B. rewrite Hlog, exec_account_log_other by exact Hne. auto.
Qed.

Lemma balance_is_start_plus_net_witness :
  exists rows B,
    account_log acct
      (run_calls [Debit acct 200 "game_unlock" (Some "epic-era-battles");
                  Credit acct 50 "quiz_reward"] db500)
    = account_log acct db500 ++ rows
    /\ profiles
         (run_calls [Debit acct 200 "game_unlock" (Some "epic-era-battles");
                     Credit acct 50 "quiz_reward"] db500) !! acct = Some B
    /\ B = 500 + net_change rows.
Proof.
  apply (balance_is_start_plus_net
           [Debit acct 200 "game_unlock" (Some "epic-era-battles");
            Credit acct 50 "quiz_reward"] db500 acct 500).
  reflexivity.
Defined.

(** X6. The two definitions of [deduct_user_coins] in the repository, the
    one of the SQL setup file and the one [execute-setup.js] installs,
    leave the same database behind on every input and return the same
    balance or an error of the same kind; they differ only in the text of
    the insufficient-coins exception. *)
Theorem deduct_variants_agree (u : uuid) (a : Z) (r : string)
    (g : option string) (d : db) :
  (run (deduct_user_coins_setup u a r g) d).2
  = (run (deduct_user_coins u a r g) d).2
  /\ same_outcome (run (deduct_user_coins_setup u a r g) d).1
       (run (deduct_user_coins u a r g) d).1
  /\ ((run (deduct_user_coins_setup u a r g) d).1
      <> (run (deduct_user_coins u a r g) d).1 ->
      exists B, profiles d !! u = Some B /\ 0 < a /\ B < a).
Proof.
  rewrite run_deduct_user_coins_setup, run_deduct_user_coins.
  ledger_cases; cbn [fst snd same_outcome];
    repeat split; try reflexivity; try congruence.
  intros _. eexists. split; [reflexivity|]. lia.
Qed.

(** X7. Calls on different accounts do not see each other: each returns
    what it returns when it runs first, and the balances and every
    account's log entries are the same in both orders. *)
Theorem calls_on_different_accounts_commute (c1 c2 : ledger_call) (d : db) :
  account_of c1 <> account_of c2 ->
  (exec c2 (exec c1 d).2).1 = (exec c2 d).1
  /\ (exec c1 (exec c2 d).2).1 = (exec c1 d).1
  /\ profiles (run_calls [c1; c2] d) = profiles (run_calls [c2; c1] d)
  /\ forall u, account_log u (run_calls [c1; c2] d)
               = account_log u (run_calls [c2; c1] d).
Proof.
  intros Hne.
  assert (H21 : profiles (exec c1 d).2 !! account_of c2
                = profiles d !! account_of c2)
    by (apply exec_profiles_other, Hne).
  assert (H12 : profiles (exec c2 d).2 !! account_of c1
                = profiles d !! account_of c1)
    by (apply exec_profiles_other; congruence).
  split; [rewrite !exec_call_outcome with (c := c2); cbn [fst];
          rewrite H21; reflexivity|].
  split; [rewrite !exec_call_outcome with (c := c1); cbn [fst];
          rewrite H12; reflexivity|].
  unfold run_calls. cbn [foldl]. split.
  - rewrite (exec_call_outcome c2 (exec c1 d).2),
      (exec_call_outcome c1 (exec c2 d).2). cbn [snd]. rewrite H21, H12.
    rewrite (exec_call_outcome c1 d), (exec_call_outcome c2 d). cbn [snd].
    destruct (call_outcome c1 (profiles d !! account_of c1)).2 as [[v1 t1]|],
      (call_outcome c2 (profiles d !! account_of c2)).2 as [[v2 t2]|];
      cbn [write_outcome posted profiles]; try reflexivity.
    apply insert_insert_ne. congruence.
  - intros u.
    destruct (exec_own_account c1 d) as [_ L1].
    destruct (exec_own_account c2 d) as [_ L2].
    destruct (exec_own_account c1 (exec c2 d).2) as [_ L12].
    destruct (exec_own_account c2 (exec c1 d).2) as [_ L21].
    rewrite H12 in L12. rewrite H21 in L21.
    destruct (decide (account_of c1 = u)) as [<-|N1].
    + rewrite exec_account_log_other by congruence.
      rewrite L12, L1, exec_account_log_other by congruence. reflexivity.
    + destruct (decide (account_of c2 = u)) as [<-|N2].
      * rewrite L21, exec_account_log_other by congruence.
        rewrite (exec_account_log_other c1 (exec c2 d).2) by congruence.
        rewrite L2. reflexivity.
      * rewrite !exec_account_log_other by congruence. reflexivity.
Qed.

Lemma calls_on_different_accounts_commute_witness :
  profiles (run_calls [Debit acct 200 "game_unlock" None;
                       Credit ghost 5 "reward"] db_two)
  = profiles (run_calls [Credit ghost 5 "reward";
                         Debit acct 200 "game_unlock" None] db_two).
Proof.
  refine (proj1 (proj2 (proj2 (calls_on_different_accounts_commute
    (Debit acct 200 "game_unlock" None) (Credit ghost 5 "reward")
    db_two _)))).
  cbn. discriminate.
Defined.

Lemma row_ok_exec c d t : row_ok d t -> row_ok (exec c d).2 t.
Proof.
  intros (Hu & Hrest). split; [|exact Hrest].
  apply elem_of_dom. rewrite exec_dom. apply elem_of_dom, Hu.
Qed.

(** The balance a successful call records, from the guards of the two
    functions and the balance before the call. *)
Lemma call_outcome_balance c b v t :
  0 <= b ->
  (call_outcome c (Some b)).2 = Some (v, t) ->
  0 <= v <= int4_max.
Proof.
  intros Hb. destruct c as [u a r g|u a r]; cbn [call_outcome].
  - case_bool_decide as Ha; [discriminate|].
    case_bool_decide as Hlt; [discriminate|].
    case_decide as Hint; [|discriminate].
    cbn [snd]. intros [= <- <-].
    unfold is_int4, int4_min, int4_max in *. lia.
  - case_bool_decide as Ha; [discriminate|].
    case_decide as Hint; [|discriminate].
    case_decide as Hcheck; [|discriminate]. clear Hcheck.
    cbn [snd]. intros [= <- <-].
    unfold is_int4, int4_min, int4_max in *. lia.
Qed.

Lemma exec_rows_ok c d :
  non_negative d ->
  Forall (row_ok d) (coin_transactions d) ->
  Forall (row_ok (exec c d).2) (coin_transactions (exec c d).2).
Proof.
  intros Hnn Hd.
  assert (Hold : Forall (row_ok (exec c d).2) (coin_transactions d)).
  { eapply Forall_impl; [exact Hd|]. intros t. apply row_ok_exec. }
  revert Hold. rewrite exec_call_outcome. cbn [snd].
  destruct (call_outcome c (profiles d !! account_of c)).2 as [[v t]|] eqn:E;
    cbn [write_outcome]; intros Hold; [|exact Hold].
  unfold posted at 2. cbn [coin_transactions].
  apply Forall_app. split; [exact Hold|]. constructor; [|constructor].
  pose proof E as E'.
  apply call_outcome_writes in E
    as (Ht & (b & Hrow) & _ & Hb & _ & Ha & Hk & _).
  split; [|split; [exact Hk|split; [exact Ha|]]].
  - unfold posted. cbn [profiles]. rewrite Ht, lookup_insert_eq. eauto.
  - exists v. split; [exact Hb|].
    rewrite Hrow in E'. eapply call_outcome_balance; [|exact E'].
    exact (Hnn _ _ Hrow).
Qed.

(** X8. On a database whose balances are all >= 0, every row the two
    functions add to the log belongs to an existing account, is a credit or
    a debit of a positive amount, and records a resulting balance that is an
    INTEGER >= 0: a log made of such rows stays so under any sequence of
    calls.  The balance recorded is >= 0 by the guards of the functions and
    the balance before the call. *)
Theorem log_rows_well_formed (calls : list ledger_call) (d : db) :
  non_negative d ->
  Forall (row_ok d) (coin_transactions d) ->
  Forall (row_ok (run_calls calls d)) (coin_transactions (run_calls calls d)).
Proof.
  revert d. induction calls as [|c rest IH]; intros d Hnn Hd; [exact Hd|].
  rewrite run_calls_cons. apply IH.
  - apply exec_non_negative, Hnn.
  - apply exec_rows_ok; assumption.
Qed.

Lemma log_rows_well_formed_witness :
  Forall
    (row_ok (run_calls [Credit acct 50 "quiz_reward";
                        Debit acct 600 "game_unlock" None;
                        Debit acct 200 "game_unlock" None] db500))
    (coin_transactions
       (run_calls [Credit acct 50 "quiz_reward";
                   Debit acct 600 "game_unlock" None;
                   Debit acct 200 "game_unlock" None] db500)).
Proof.
  apply (log_rows_well_formed
           [Credit acct 50 "quiz_reward";
            Debit acct 600 "game_unlock" None;
            Debit acct 200 "game_unlock" None] db500).
  - unfold non_negative.
    change (profiles db500) with ({[ acct := 500 ]} : gmap N Z).
    apply map_Forall_singleton. lia.
  - constructor.
Defined.

(** X9. Among concurrent debits on one account, at most one is past its
    [SELECT ... FOR UPDATE] at any point of any schedule: of two running
    sessions one has not executed a statement yet, and a session with
    writes that are not committed holds the lock of the row. *)
Theorem one_debit_at_a_time (u : uuid) (B n : Z) (d0 : db)
    (args : list (string * option string)) (schedule : list nat)
    (i j : nat) (p q : plpgsql Z) (ws wq : list effect) :
  profiles d0 !! u = Some B -> 0 <= B <= int4_max -> 0 < n ->
  let c := run_schedule schedule (start d0 (debits u n args)) in
  sessions c !! i = Some (running p ws) ->
  sessions c !! j = Some (running q wq) ->
  i <> j ->
  (ws <> [] -> row_locks c !! u = Some i)
  /\ ((exists r g, args !! i = Some (r, g)
                   /\ p = deduct_user_coins u n r g /\ ws = [])
      \/ (exists r g, args !! j = Some (r, g)
                      /\ q = deduct_user_coins u n r g /\ wq = [])).
Proof.
  intros Hrow HB Hn c Hi Hj Hne.
  assert (Hinv : debits_inv u B n d0 args c).
  { apply debits_inv_run_schedule; [assumption..|].
    apply debits_inv_start; assumption. }
  destruct (inv_sessions c Hinv i p ws Hi)
    as (r & g & Ha & _ & _ & _ & Hown).
  destruct (inv_sessions c Hinv j q wq Hj)
    as (r' & g' & Ha' & _ & _ & _ & Hown').
  split.
  - intros Hws. destruct Hown as [Hheld|[_ ->]]; [exact Hheld|].
    contradiction.
  - destruct Hown as [Hheld|[-> ->]]; [|left; eauto].
    destruct Hown' as [Hheld'|[-> ->]]; [|right; eauto].
    rewrite Hheld in Hheld'. congruence.
Qed.

Lemma one_debit_at_a_time_witness :
  let c := run_schedule [0; 1; 0; 1]%nat
             (start db10 (debits acct 4 [("a", None); ("b", None)])) in
  exists p ws q wq,
    sessions c !! 0%nat = Some (running p ws)
    /\ sessions c !! 1%nat = Some (running q wq)
    /\ ws <> []
    /\ row_locks c !! acct = Some 0%nat
    /\ q = deduct_user_coins acct 4 "b" None /\ wq = [].
Proof.
  intros c.
  assert (Hs : exists p ws q wq,
             sessions c !! 0%nat = Some (running p ws)
             /\ sessions c !! 1%nat = Some (running q wq) /\ ws <> []).
  { eexists _, _, _, _. split; [reflexivity|].
    split; [reflexivity|]. discriminate. }
  destruct Hs as (p & ws & q & wq & Hi & Hj & Hws).
  exists p, ws, q, wq.
  assert (H01 : 0%nat <> 1%nat) by discriminate.
  assert (Hu : profiles db10 !! acct = Some 10) by reflexivity.
  assert (HB : 0 <= 10 <= int4_max) by (unfold int4_max; lia).
  assert (Hn : 0 < 4) by lia.
  destruct (one_debit_at_a_time acct 10 4 db10 [("a", None); ("b", None)]
              [0; 1; 0; 1]%nat 0%nat 1%nat p q ws wq Hu HB Hn Hi Hj H01)
    as [Hlock [(r & g & _ & _ & Hnil)|(r & g & Ha & Hq & Hwq)]].
  - contradiction.
  - injection Ha as <- <-.
    split; [exact Hi|]. split; [exact Hj|]. split; [exact Hws|].
    split; [exact (Hlock Hws)|]. split; assumption.
Defined.

(** * The scripts around the ledger *)

(** ** [passwordValidator] *)

(** The score of a non-empty password counts the rules it meets. *)
Lemma validateStrength_score (password : list N) :
  password <> [] ->
  score (validateStrength password)
  = (Nat.b2n (bool_decide (MIN_LENGTH <= length password)%nat)
     + Nat.b2n (test_class UPPERCASE password)
     + Nat.b2n (test_class LOWERCASE password)
     + Nat.b2n (test_class NUMBER password)
     + Nat.b2n (test_class SPECIAL password))%nat
  /\ (score (validateStrength password)
      + length (feedback (validateStrength password)) = 5)%nat
  /\ (label (validateStrength password) = "Strong"
      <-> score (validateStrength password) = 5%nat).
Proof.
  destruct password as [|c rest]; [congruence|]. intros _.
  unfold validateStrength.
  generalize (bool_decide (MIN_LENGTH <= length (c :: rest))%nat),
    (test_class UPPERCASE (c :: rest)), (test_class LOWERCASE (c :: rest)),
    (test_class NUMBER (c :: rest)), (test_class SPECIAL (c :: rest)).
  intros [] [] [] [] []; cbn;
    (split; [reflexivity|]); (split; [reflexivity|]);
    split; intros H; (reflexivity || discriminate H).
Qed.

(** X10. [isValid] accepts exactly the passwords that [validateStrength]
    scores 5, and those are exactly the ones it labels Strong. *)
Theorem isValid_iff_strong (password : list N) :
  (isValid password = true <-> score (validateStrength password) = 5%nat)
  /\ (isValid password = true
      <-> label (validateStrength password) = "Strong").
Proof.
  destruct password as [|c rest].
  { cbn. repeat split; intros H; discriminate H. }
  destruct (validateStrength_score (c :: rest)) as (Hs & _ & Hl);
    [discriminate|].
  rewrite Hl, Hs. unfold isValid.
  destruct (bool_decide (MIN_LENGTH <= length (c :: rest))%nat),
    (test_class UPPERCASE (c :: rest)), (test_class LOWERCASE (c :: rest)),
    (test_class NUMBER (c :: rest)), (test_class SPECIAL (c :: rest));
    cbn; repeat split; intros H; (reflexivity || discriminate H).
Qed.

(** X11. For every non-empty password the score and the number of feedback
    messages add up to 5: there is one message for each rule the password
    fails and none when it meets all five; the empty password gets score 0
    and the single message to enter a password. *)
Theorem score_plus_feedback (password : list N) :
  match password with
  | [] =>
      score (validateStrength password) = 0%nat
      /\ feedback (validateStrength password) = ["Enter a password"]
  | _ :: _ =>
      (score (validateStrength password)
       + length (feedback (validateStrength password)) = 5)%nat
  end.
Proof.
  destruct password as [|c rest]; [split; reflexivity|].
  apply validateStrength_score. discriminate.
Qed.

Lemma test_class_app class s1 s2 :
  test_class class (s1 ++ s2) = test_class class s1 || test_class class s2.
Proof. unfold test_class. apply existsb_app. Qed.

Lemma b2n_le (b1 b2 : bool) :
  (b1 = true -> b2 = true) -> (Nat.b2n b1 <= Nat.b2n b2)%nat.
Proof.
  destruct b1, b2; cbn; intros H; try lia;
    specialize (H eq_refl); discriminate H.
Qed.

(** X12. Adding characters to a non-empty password, in front or behind,
    never lowers its score, and a valid password stays valid. *)
Theorem longer_password_scores_no_less (password before after : list N) :
  password <> [] ->
  (score (validateStrength password)
   <= score (validateStrength (before ++ password ++ after)))%nat
  /\ (isValid password = true ->
      isValid (before ++ password ++ after) = true).
Proof.
  intros Hne.
  assert (Hne' : before ++ password ++ after <> []).
  { destruct before; [|discriminate]. destruct password; [congruence|].
    discriminate. }
  assert (Hlen : bool_decide (MIN_LENGTH <= length password)%nat = true ->
                 bool_decide (MIN_LENGTH <= length (before ++ password ++ after))%nat
                 = true).
  { rewrite !bool_decide_eq_true, !length_app. lia. }
  assert (Hcl : forall class, test_class class password = true ->
                  test_class class (before ++ password ++ after) = true).
  { intros class H. rewrite !test_class_app, H.
    destruct (test_class class before); reflexivity. }
  split.
  - destruct (validateStrength_score _ Hne) as (-> & _).
    destruct (validateStrength_score _ Hne') as (-> & _).
    pose proof (b2n_le _ _ Hlen).
    pose proof (b2n_le _ _ (Hcl UPPERCASE)).
    pose proof (b2n_le _ _ (Hcl LOWERCASE)).
    pose proof (b2n_le _ _ (Hcl NUMBER)).
    pose proof (b2n_le _ _ (Hcl SPECIAL)). lia.
  - unfold isValid. rewrite !andb_true_iff.
    intros ((((H1 & H2) & H3) & H4) & H5). auto 10.
Qed.

Lemma longer_password_scores_no_less_witness :
  (score (validateStrength (js "abc"))
   <= score (validateStrength (js "X" ++ js "abc" ++ js "1!")))%nat.
Proof.
  refine (proj1 (longer_password_scores_no_less (js "abc") (js "X")
                   (js "1!") _)).
  discriminate.
Defined.

(** ** [trim], [split] and [startsWith] *)

Lemma drop_while_all f s :
  Forall (fun c => f c = true) s -> drop_while f s = [].
Proof. induction 1 as [|c s Hc _ IH]; cbn; [|rewrite Hc]; auto. Qed.

Lemma drop_while_app f s1 s2 :
  drop_while f (s1 ++ s2)
  = match drop_while f s1 with
    | [] => drop_while f s2
    | c :: rest => (c :: rest) ++ s2
    end.
Proof.
  induction s1 as [|c s1 IH]; cbn.
  - destruct (drop_while f s2); reflexivity.
  - destruct (f c); [apply IH | reflexivity].
Qed.

Lemma drop_while_split f s :
  exists pre, s = pre ++ drop_while f s /\ Forall (fun c => f c = true) pre.
Proof.
  induction s as [|c s (pre & E & Hpre)]; cbn.
  - exists []. split; [reflexivity | constructor].
  - destruct (f c) eqn:Hc.
    + exists (c :: pre). split; [cbn; congruence | constructor; assumption].
    + exists []. split; [reflexivity | constructor].
Qed.

Lemma drop_while_head f s c :
  head (drop_while f s) = Some c -> f c = false.
Proof.
  induction s as [|a s IH]; cbn; [discriminate|].
  destruct (f a) eqn:Ha; [exact IH|]. cbn. congruence.
Qed.

Lemma drop_while_id f s :
  (forall c, head s = Some c -> f c = false) -> drop_while f s = s.
Proof.
  destruct s as [|c s]; cbn; [reflexivity|].
  intros H. rewrite (H c eq_refl). reflexivity.
Qed.

Lemma head_reverse (s : list N) : head (reverse s) = last s.
Proof.
  induction s as [|c s IH] using rev_ind; [reflexivity|].
  rewrite reverse_snoc, last_snoc. reflexivity.
Qed.

Lemma last_reverse (s : list N) : last (reverse s) = head s.
Proof. rewrite <- head_reverse, reverse_involutive. reflexivity. Qed.

Lemma head_app_cons (s1 s2 : list N) c :
  head s1 = Some c -> head (s1 ++ s2) = Some c.
Proof. destruct s1; cbn; [discriminate | auto]. Qed.

(** [trimEnd] cuts white space off the end and nothing else. *)
Lemma trimEnd_split s :
  exists post,
    s = trimEnd s ++ post
    /\ Forall (fun c => is_js_whitespace c = true) post.
Proof.
  unfold trimEnd.
  destruct (drop_while_split is_js_whitespace (reverse s)) as (pre & E & H).
  exists (reverse pre). split.
  - rewrite <- reverse_app, <- E, reverse_involutive. reflexivity.
  - apply Forall_reverse. exact H.
Qed.

(** [trim] cuts white space off both ends and nothing else. *)
Lemma trim_split s :
  exists pre post,
    s = pre ++ trim s ++ post
    /\ Forall (fun c => is_js_whitespace c = true) pre
    /\ Forall (fun c => is_js_whitespace c = true) post.
Proof.
  unfold trim, trimStart.
  destruct (drop_while_split is_js_whitespace s) as (pre & E & Hpre).
  destruct (trimEnd_split (drop_while is_js_whitespace s))
    as (post & E' & Hpost).
  exists pre, post. split; [|split; assumption].
  rewrite <- E'. exact E.
Qed.

Lemma trim_clean_ends s : clean_ends (trim s).
Proof.
  unfold trim, trimStart. set (t := drop_while is_js_whitespace s).
  assert (Ht : forall c, head t = Some c -> is_js_whitespace c = false)
    by (intros c; apply drop_while_head).
  destruct (trimEnd_split t) as (post & E & _).
  split; intros c Hc.
  - apply Ht. rewrite E. apply head_app_cons. exact Hc.
  - unfold trimEnd in Hc. rewrite last_reverse in Hc.
    apply (drop_while_head _ _ _ Hc).
Qed.

Lemma trim_id s : clean_ends s -> trim s = s.
Proof.
  intros (Hh & Hl). unfold trim, trimStart, trimEnd.
  rewrite (drop_while_id _ s Hh), drop_while_id.
  - apply reverse_involutive.
  - intros c. rewrite head_reverse. apply Hl.
Qed.

Lemma trim_idempotent s : trim (trim s) = trim s.
Proof. apply trim_id, trim_clean_ends. Qed.

Lemma Forall_trim (P : N -> Prop) s : Forall P s -> Forall P (trim s).
Proof.
  destruct (trim_split s) as (pre & post & E & _). intros H.
  rewrite E in H. apply Forall_app in H as (_ & H).
  apply Forall_app in H as (H & _). exact H.
Qed.

Lemma length_trim s : (length (trim s) <= length s)%nat.
Proof.
  destruct (trim_split s) as (pre & post & E & _).
  rewrite E at 2. rewrite !length_app. lia.
Qed.

(** [trim] gives the empty string exactly for strings of white space. *)
Lemma trim_nil s :
  trim s = [] <-> Forall (fun c => is_js_whitespace c = true) s.
Proof.
  split.
  - intros E. destruct (trim_split s) as (pre & post & Es & Hpre & Hpost).
    rewrite Es, E. apply Forall_app. split; assumption.
  - intros H. unfold trim, trimStart. rewrite (drop_while_all _ _ H).
    reflexivity.
Qed.

(** White space around a string does not change what [trim] gives. *)
Lemma trim_padding before s after :
  Forall (fun c => is_js_whitespace c = true) before ->
  Forall (fun c => is_js_whitespace c = true) after ->
  trim (before ++ s ++ after) = trim s.
Proof.
  intros Hb Ha. unfold trim, trimStart.
  rewrite drop_while_app, (drop_while_all _ _ Hb), drop_while_app.
  destruct (drop_while is_js_whitespace s) as [|c t] eqn:E.
  - rewrite (drop_while_all _ _ Ha). reflexivity.
  - unfold trimEnd. rewrite reverse_app, drop_while_app.
    rewrite (drop_while_all _ (reverse after));
      [reflexivity | apply Forall_reverse; exact Ha].
Qed.

Lemma clean_ends_no_whitespace s :
  Forall (fun c => is_js_whitespace c = false) s -> clean_ends s.
Proof.
  intros H. rewrite Forall_forall in H.
  split; intros c Hc; apply H.
  - destruct s; [discriminate|]. injection Hc as ->. left.
  - apply last_Some in Hc as (l' & ->). apply elem_of_app. right. left.
Qed.

Lemma Forall_remove_class (P : N -> Prop) class s :
  Forall P s -> Forall P (remove_class class s).
Proof.
  unfold remove_class. induction 1 as [|c s Hc _ IH]; cbn; [constructor|].
  destruct (negb (class c)); [constructor|]; assumption.
Qed.

Lemma remove_class_clean class s :
  Forall (fun c => class c = false) (remove_class class s).
Proof.
  unfold remove_class. induction s as [|c s IH]; cbn; [constructor|].
  destruct (class c) eqn:Hc; cbn; [|constructor]; assumption.
Qed.

Lemma remove_class_id class s :
  Forall (fun c => class c = false) s -> remove_class class s = s.
Proof.
  unfold remove_class. induction 1 as [|c s Hc _ IH]; cbn; [reflexivity|].
  rewrite Hc. cbn. congruence.
Qed.

Lemma length_remove_class class s :
  (length (remove_class class s) <= length s)%nat.
Proof.
  unfold remove_class. induction s as [|c s IH]; cbn; [lia|].
  destruct (negb (class c)); cbn; lia.
Qed.

Lemma startsWith_spec s prefix :
  startsWith s prefix = true <-> exists rest, s = prefix ++ rest.
Proof.
  revert s. induction prefix as [|p prefix IH]; intros s; cbn.
  - split; [intros _; exists s; reflexivity | intros _; destruct s; reflexivity].
  - destruct s as [|c s].
    + cbn. split; [discriminate | intros (rest & E); discriminate E].
    + cbn. rewrite andb_true_iff, N.eqb_eq, IH. split.
      * intros (-> & rest & ->). exists rest. reflexivity.
      * intros (rest & E). injection E as -> ->. split; [reflexivity|].
        exists rest. reflexivity.
Qed.

Lemma split_not_nil sep s : split sep s <> [].
Proof.
  destruct s as [|c s]; cbn; [discriminate|].
  destruct (c =? sep)%N; [discriminate|].
  destruct (split sep s); discriminate.
Qed.

(** Splitting at a separator splits the two sides on their own. *)
Lemma split_app sep s1 s2 :
  split sep (s1 ++ sep :: s2) = split sep s1 ++ split sep s2.
Proof.
  induction s1 as [|c s1 IH]; cbn.
  - rewrite N.eqb_refl. reflexivity.
  - destruct (c =? sep)%N; [rewrite IH; reflexivity|].
    rewrite IH. pose proof (split_not_nil sep s1).
    destruct (split sep s1); [congruence | reflexivity].
Qed.

(** No chunk holds the separator. *)
Lemma split_no_sep sep s :
  Forall (fun chunk => sep ∉ chunk) (split sep s).
Proof.
  induction s as [|c s IH]; cbn.
  - repeat constructor. apply not_elem_of_nil.
  - destruct (c =? sep)%N eqn:Hc.
    + constructor; [apply not_elem_of_nil | exact IH].
    + apply N.eqb_neq in Hc. destruct (split sep s) as [|chunk chunks].
      * repeat constructor. intros H. apply elem_of_cons in H as [H|H];
          [congruence | inversion H].
      * apply Forall_cons in IH as (H1 & H2). constructor; [|exact H2].
        intros H. apply elem_of_cons in H as [H|H]; [congruence | auto].
Qed.

(** A string without the separator is one chunk. *)
Lemma split_one sep s : sep ∉ s -> split sep s = [s].
Proof.
  induction s as [|c s IH]; cbn; [reflexivity|]. intros H.
  apply not_elem_of_cons in H as (Hc & Hs).
  destruct (N.eqb_spec c sep); [congruence|]. rewrite (IH Hs). reflexivity.
Qed.

(** ** The validators of the edge functions *)

Ltac class_facts :=
  unfold is_js_whitespace, angle_bracket, control, control_but_tab_newline,
    video_id_char, hex_digit, dash in *;
  repeat match goal with
         | |- _ = false => apply not_true_iff_false; intros ?
         | H : _ = false |- _ => apply not_true_iff_false in H
         end;
  rewrite ?orb_true_iff, ?andb_true_iff, ?N.leb_le, ?N.eqb_eq in *;
  lia.

Lemma sanitize_shape class maxLength s :
  let r := trim (remove_class class (take maxLength s)) in
  (length r <= maxLength)%nat
  /\ Forall (fun c => class c = false) r
  /\ clean_ends r
  /\ trim (remove_class class (take maxLength r)) = r.
Proof.
  intros r.
  assert (Hlen : (length r <= maxLength)%nat).
  { subst r. etransitivity; [apply length_trim|].
    etransitivity; [apply length_remove_class|].
    rewrite length_take. lia. }
  assert (Hclass : Forall (fun c => class c = false) r)
    by apply Forall_trim, remove_class_clean.
  assert (Hends : clean_ends r) by apply trim_clean_ends.
  repeat split; try assumption; try apply Hends.
  rewrite take_ge by exact Hlen.
  rewrite (remove_class_id _ _ Hclass). apply trim_id, Hends.
Qed.

Lemma remove_class_twice class1 class2 s :
  remove_class class2 (remove_class class1 s)
  = remove_class (fun c => class1 c || class2 c) s.
Proof.
  unfold remove_class. induction s as [|c s IH]; cbn; [reflexivity|].
  destruct (class1 c); cbn; [exact IH|].
  destruct (class2 c); cbn; congruence.
Qed.

(** X13. Whatever the text and the maximal length, [sanitizeText] gives a
    string of at most that length, without angle brackets and without
    characters below U+0020, that neither starts nor ends with white space;
    sanitising it again changes nothing. *)
Theorem sanitizeText_clean (text : list N) (maxLength : nat) :
  let r := sanitizeText text maxLength in
  (length r <= maxLength)%nat
  /\ Forall (fun c => c <> 60 /\ c <> 62 /\ 32 <= c)%N r
  /\ clean_ends r
  /\ sanitizeText r maxLength = r.
Proof.
  unfold sanitizeText. rewrite remove_class_twice.
  destruct (sanitize_shape (fun c => angle_bracket c || control c)
              maxLength text) as (H1 & H2 & H3 & H4).
  cbn zeta. rewrite remove_class_twice. repeat split; try assumption;
    try apply H3.
  eapply Forall_impl; [exact H2|]. cbn. intros c Hc.
  apply orb_false_iff in Hc as (Ha & Hc). class_facts.
Qed.

(** X14. [sanitizeNotes] gives at most [MAX_NOTES_LENGTH] characters, none
    of them a control character other than tab, line feed and carriage
    return, without white space at either end; sanitising again changes
    nothing. *)
Theorem sanitizeNotes_clean (notes : list N) :
  let r := sanitizeNotes notes in
  (length r <= MAX_NOTES_LENGTH)%nat
  /\ Forall (fun c => 32 <= c \/ c = 9 \/ c = 10 \/ c = 13)%N r
  /\ clean_ends r
  /\ sanitizeNotes r = r.
Proof.
  unfold sanitizeNotes.
  destruct (sanitize_shape control_but_tab_newline MAX_NOTES_LENGTH notes)
    as (H1 & H2 & H3 & H4).
  cbn zeta. repeat split; try assumption; try apply H3.
  eapply Forall_impl; [exact H2|]. cbn. intros c Hc. class_facts.
Qed.

Lemma trim_not_nil s :
  trim s <> [] <-> Exists (fun c => is_js_whitespace c = false) s.
Proof.
  rewrite trim_nil. split.
  - intros H. apply not_Forall_Exists in H; [|intros c; apply _].
    eapply Exists_impl; [exact H|]. cbn. intros c Hc.
    destruct (is_js_whitespace c); congruence.
  - intros HE HF. apply Exists_exists in HE as (c & Hin & Hc).
    rewrite Forall_forall in HF. specialize (HF c Hin). congruence.
Qed.

Lemma Exists_not_nil {A} (P : A -> Prop) (s : list A) : Exists P s -> s <> [].
Proof. intros H E. rewrite E in H. inversion H. Qed.

(** X15. [validateVideoTitle] and [validateNotes] accept exactly the strings
    that hold a character that is not white space, and reject every other
    value with an empty sanitised text and an error message. *)
Theorem title_and_notes_valid_iff (v : jsvalue) :
  (valid (validateVideoTitle v) = true
   <-> exists s, v = js_string s
                 /\ Exists (fun c => is_js_whitespace c = false) s)
  /\ (valid (validateNotes v) = valid (validateVideoTitle v))
  /\ (valid (validateVideoTitle v) = false ->
      sanitized (validateVideoTitle v) = []
      /\ error (validateVideoTitle v) <> None
      /\ sanitized (validateNotes v) = []
      /\ error (validateNotes v) <> None).
Proof.
  destruct v as [[|c s]|]; cbn.
  - repeat split; try discriminate.
    intros (s & E & H). injection E as <-. inversion H.
  - case_bool_decide as Hl; cbn.
    + apply length_zero_iff_nil in Hl. repeat split; try discriminate.
      intros (s' & E & H). injection E as <-.
      apply trim_not_nil in H. exfalso. exact (H Hl).
    + repeat split; try discriminate.
      intros _. exists (c :: s). split; [reflexivity|].
      apply trim_not_nil. intros E. apply Hl. rewrite E. reflexivity.
  - repeat split; try discriminate. intros (s & E & _). discriminate E.
Qed.

Lemma remove_class_all class s :
  Forall (fun c => class c = true) s -> remove_class class s = [].
Proof.
  unfold remove_class. induction 1 as [|c s Hc _ IH]; cbn; [reflexivity|].
  rewrite Hc. exact IH.
Qed.

(** X16. A title made of angle brackets and control characters only, or
    notes made of the control characters [sanitizeNotes] removes, with one
    character that is not white space, are accepted as valid with the empty
    string as sanitised text. *)
Theorem accepted_with_nothing_left (s : list N) :
  Exists (fun c => is_js_whitespace c = false) s ->
  (Forall (fun c => angle_bracket c || control c = true) s ->
   validateVideoTitle (js_string s) = accepted [])
  /\ (Forall (fun c => control_but_tab_newline c = true) s ->
      validateNotes (js_string s) = accepted []).
Proof.
  intros HE. pose proof (proj2 (trim_not_nil s) HE) as Hne.
  destruct s as [|c s]; [inversion HE|].
  unfold validateVideoTitle, validateNotes.
  rewrite bool_decide_eq_false_2
    by (intros E; apply Hne, length_zero_iff_nil, E).
  split; intros H; f_equal.
  - unfold sanitizeText. rewrite remove_class_twice, remove_class_all;
      [reflexivity|].
    apply Forall_take, Forall_trim, H.
  - unfold sanitizeNotes. rewrite remove_class_all; [reflexivity|].
    apply Forall_take, Forall_trim, H.
Qed.

Lemma accepted_with_nothing_left_witness :
  validateVideoTitle (js_string (js "<>")) = accepted []
  /\ validateNotes (js_string [0%N]) = accepted [].
Proof.
  split.
  - refine (proj1 (accepted_with_nothing_left (js "<>") _) _).
    + left. reflexivity.
    + repeat constructor.
  - refine (proj2 (accepted_with_nothing_left [0%N] _) _).
    + left. reflexivity.
    + repeat constructor.
Defined.

Lemma test_all_class_spec class s :
  test_all_class class s = true
  <-> s <> [] /\ Forall (fun c => class c = true) s.
Proof.
  destruct s as [|c s]; cbn - [forallb].
  - split; [discriminate | intros (H & _); congruence].
  - rewrite forallb_forall, Forall_forall. split.
    + intros H. split; [discriminate|]. intros x Hx. apply H.
      apply list_elem_of_In, Hx.
    + intros (_ & H) x Hx. apply H, list_elem_of_In, Hx.
Qed.

Lemma video_id_char_not_whitespace c :
  video_id_char c = true -> is_js_whitespace c = false.
Proof. intros H. class_facts. Qed.

(** What [validateVideoId] returns, by the trimmed string. *)
Lemma validateVideoId_accepted s :
  s <> [] ->
  (1 <= length (trim s) <= MAX_VIDEO_ID_LENGTH)%nat ->
  Forall (fun c => video_id_char c = true) (trim s) ->
  validateVideoId (js_string s) = accepted (trim s).
Proof.
  intros Hs Hl Hc. destruct s as [|c s]; [congruence|].
  unfold validateVideoId.
  rewrite bool_decide_eq_false_2 by lia.
  rewrite bool_decide_eq_false_2 by lia. cbn [orb].
  replace (test_all_class video_id_char (trim (c :: s))) with true;
    [reflexivity|].
  symmetry. apply test_all_class_spec. split; [|exact Hc].
  intros E. rewrite E in Hl. cbn in Hl. lia.
Qed.

Lemma validateVideoId_valid v :
  valid (validateVideoId v) = true ->
  exists s, v = js_string s /\ s <> []
            /\ (1 <= length (trim s) <= MAX_VIDEO_ID_LENGTH)%nat
            /\ Forall (fun c => video_id_char c = true) (trim s).
Proof.
  destruct v as [[|c s]|]; cbn; try discriminate.
  case_bool_decide as H1; cbn; [discriminate|].
  case_bool_decide as H2; cbn; [discriminate|].
  destruct (test_all_class video_id_char (trim (c :: s))) eqn:Ht; cbn;
    [|discriminate].
  intros _. apply test_all_class_spec in Ht as (_ & Ht).
  exists (c :: s). repeat split; try assumption; try discriminate; lia.
Qed.

(** X17. A video id that [validateVideoId] accepts comes back with 1 to 50
    characters, all of them letters, digits, underscore or dash, and without
    an error; validating the returned id again gives the same answer. *)
Theorem video_id_accepted (videoId : jsvalue) :
  valid (validateVideoId videoId) = true ->
  let id := sanitized (validateVideoId videoId) in
  (1 <= length id <= MAX_VIDEO_ID_LENGTH)%nat
  /\ Forall (fun c => video_id_char c = true) id
  /\ error (validateVideoId videoId) = None
  /\ validateVideoId (js_string id) = validateVideoId videoId.
Proof.
  intros H. destruct (validateVideoId_valid _ H) as (s & -> & Hs & Hl & Hc).
  rewrite (validateVideoId_accepted s Hs Hl Hc).
  cbn [sanitized error accepted].
  repeat split; try assumption; try lia.
  assert (Hid : trim (trim s) = trim s) by apply trim_idempotent.
  rewrite validateVideoId_accepted; rewrite ?Hid;
    try first [reflexivity | assumption].
  intros E. rewrite E in Hl. cbn in Hl. lia.
Qed.

Lemma video_id_accepted_witness :
  sanitized (validateVideoId (js_string (js " dQw4w9WgXcQ ")))
  = js "dQw4w9WgXcQ"
  /\ validateVideoId (js_string (js "dQw4w9WgXcQ"))
     = validateVideoId (js_string (js " dQw4w9WgXcQ ")).
Proof.
  split; [reflexivity|].
  exact (proj2 (proj2 (proj2
    (video_id_accepted (js_string (js " dQw4w9WgXcQ ")) eq_refl)))).
Defined.

(** X18. White space before and after a non-empty string changes the
    answer of none of the four validators. *)
Theorem validators_ignore_padding (before s after : list N) :
  s <> [] ->
  Forall (fun c => is_js_whitespace c = true) before ->
  Forall (fun c => is_js_whitespace c = true) after ->
  let padded := js_string (before ++ s ++ after) in
  validateVideoTitle padded = validateVideoTitle (js_string s)
  /\ validateVideoId padded = validateVideoId (js_string s)
  /\ validateTodoId padded = validateTodoId (js_string s)
  /\ validateNotes padded = validateNotes (js_string s).
Proof.
  intros Hs Hb Ha. pose proof (trim_padding before s after Hb Ha) as E.
  assert (Hp : before ++ s ++ after <> []).
  { destruct before; [|discriminate]. destruct s; [congruence|discriminate]. }
  cbn zeta. destruct (before ++ s ++ after) as [|c p]; [congruence|].
  destruct s as [|c' s]; [congruence|].
  unfold validateVideoTitle, validateVideoId, validateTodoId, validateNotes.
  rewrite E. repeat split; reflexivity.
Qed.

Lemma validators_ignore_padding_witness :
  validateVideoId (js_string (js "  abc_123 "))
  = validateVideoId (js_string (js "abc_123")).
Proof.
  refine (proj1 (proj2
    (validators_ignore_padding (js "  ") (js "abc_123") (js " ") _ _ _)));
    [discriminate | repeat constructor | repeat constructor].
Defined.

Lemma test_sequence_spec pattern s :
  test_sequence pattern s = true
  <-> Forall2 (fun (class : N -> bool) c => class c = true) pattern s.
Proof.
  revert s. induction pattern as [|class pattern IH]; intros [|c s]; cbn.
  - split; [constructor | reflexivity].
  - split; [discriminate | intros H; inversion H].
  - split; [discriminate | intros H; inversion H].
  - rewrite andb_true_iff, IH. split.
    + intros (H1 & H2). constructor; assumption.
    + intros H. inversion H; subst. split; assumption.
Qed.

Lemma validateTodoId_valid v :
  valid (validateTodoId v) = true ->
  exists s, v = js_string s /\ s <> []
            /\ test_sequence UUID_pattern (trim s) = true
            /\ validateTodoId v = accepted (trim s).
Proof.
  destruct v as [[|c s]|]; cbn - [UUID_pattern]; try discriminate.
  destruct (test_sequence UUID_pattern (trim (c :: s))) eqn:Ht;
    cbn - [UUID_pattern]; [|discriminate].
  intros _. exists (c :: s).
  repeat split; first [discriminate | assumption | reflexivity].
Qed.

(** X19. A todo id that [validateTodoId] accepts has 36 characters: dashes
    at positions 8, 13, 18 and 23 (counted from 0), and digits or letters
    a to f, in either case, everywhere else. *)
Theorem todo_id_accepted (todoId : jsvalue) :
  valid (validateTodoId todoId) = true ->
  let id := sanitized (validateTodoId todoId) in
  length id = 36%nat
  /\ forall (i : nat) (c : N), id !! i = Some c ->
       if bool_decide (i ∈ [8; 13; 18; 23]%nat)
       then c = 45%N
       else hex_digit c = true.
Proof.
  intros H. destruct (validateTodoId_valid _ H) as (s & -> & Hs & Ht & ->).
  cbn. apply test_sequence_spec in Ht. split.
  - apply Forall2_length in Ht. rewrite <- Ht. reflexivity.
  - intros i c Hc.
    destruct (UUID_pattern !! i) as [class|] eqn:Hp.
    + pose proof (Forall2_lookup_lr _ _ _ _ _ _ Ht Hp Hc) as Hcl.
      do 36 (destruct i as [|i];
             [cbn in Hp; injection Hp as <-; cbn;
              first [exact Hcl | apply N.eqb_eq, Hcl]|]).
      discriminate Hp.
    + apply lookup_ge_None in Hp. apply lookup_lt_Some in Hc.
      apply Forall2_length in Ht. lia.
Qed.

Lemma todo_id_accepted_witness :
  length (sanitized (validateTodoId
    (js_string (js "123e4567-E89B-12d3-a456-426614174000")))) = 36%nat.
Proof.
  exact (proj1 (todo_id_accepted
    (js_string (js "123e4567-E89B-12d3-a456-426614174000")) eq_refl)).
Defined.

(** X20. Every todo id that [validateTodoId] accepts is also accepted by
    [validateVideoId], with the same sanitised string. *)
Theorem todo_id_is_video_id (id : jsvalue) :
  valid (validateTodoId id) = true ->
  validateVideoId id = validateTodoId id.
Proof.
  intros H. destruct (validateTodoId_valid _ H) as (s & -> & Hs & Ht & ->).
  apply test_sequence_spec in Ht.
  apply validateVideoId_accepted; [exact Hs | |].
  - apply Forall2_length in Ht. rewrite <- Ht. cbn.
    unfold MAX_VIDEO_ID_LENGTH. lia.
  - assert (Hp : Forall (fun class : N -> bool =>
                   forall c, class c = true -> video_id_char c = true)
                   UUID_pattern).
    { repeat constructor; intros c Hc; class_facts. }
    clear -Ht Hp. induction Ht; [constructor|].
    apply Forall_cons in Hp as (Hx & Hp). constructor; auto.
Qed.

Lemma todo_id_is_video_id_witness :
  validateVideoId (js_string (js "123e4567-e89b-12d3-a456-426614174000"))
  = validateTodoId (js_string (js "123e4567-e89b-12d3-a456-426614174000")).
Proof.
  exact (todo_id_is_video_id
    (js_string (js "123e4567-e89b-12d3-a456-426614174000")) eq_refl).
Defined.

(** ** [Sidebar] *)

(** X21. A navigation entry is active on its own path and on every path
    below it, that is, the path followed by a slash and anything; on no
    other path, so not on a path that merely starts with the same
    characters. *)
Theorem isActive_spec (pathname path : list N) :
  isActive pathname path = true
  <-> pathname = path \/ exists rest, pathname = path ++ slash :: rest.
Proof.
  unfold isActive.
  rewrite orb_true_iff, bool_decide_eq_true, startsWith_spec.
  split; (intros [H|(rest & H)]; [left; exact H | right; exists rest]).
  - rewrite H, <- app_assoc. reflexivity.
  - rewrite H, <- app_assoc. reflexivity.
Qed.

(** ** The setup scripts *)

Lemma not_elem_of_trim (x : N) s : x ∉ s -> x ∉ trim s.
Proof.
  destruct (trim_split s) as (pre & post & E & _). intros H Hin. apply H.
  rewrite E. apply elem_of_app. right. apply elem_of_app. left. exact Hin.
Qed.

(** X22. Every statement [setup-database.js] sends is non-empty, holds no
    semicolon, has no white space at its ends and does not start with two
    dashes. *)
Theorem sqlStatements_well_formed (sqlContent : list N) :
  Forall (fun stmt => stmt <> []
                      /\ (semicolon ∉ stmt)
                      /\ startsWith stmt (js "--") = false
                      /\ clean_ends stmt)
    (sqlStatements sqlContent).
Proof.
  apply Forall_forall. intros stmt Hin.
  apply list_elem_of_In, filter_In in Hin as (Hin & Hf).
  apply in_map_iff in Hin as (chunk & <- & Hin).
  apply andb_true_iff in Hf as (Hlen & Hcomment).
  apply bool_decide_eq_true in Hlen. apply negb_true_iff in Hcomment.
  repeat split; try apply trim_clean_ends; try assumption.
  - intros E. rewrite E in Hlen. cbn in Hlen. lia.
  - apply not_elem_of_trim.
    pose proof (split_no_sep semicolon sqlContent) as H.
    rewrite Forall_forall in H. apply H, list_elem_of_In, Hin.
Qed.

(** X23. The statements of a text with a semicolon in it are the statements
    of what stands before the semicolon followed by the statements of what
    stands after it, wherever the semicolon is: also inside a function body
    between dollar quotes or inside a string. *)
Theorem sqlStatements_app (before after : list N) :
  sqlStatements (before ++ semicolon :: after)
  = sqlStatements before ++ sqlStatements after.
Proof.
  unfold sqlStatements. rewrite split_app, map_app. apply List.filter_app.
Qed.

Lemma sqlStatements_comment chunk :
  semicolon ∉ chunk ->
  startsWith (trim chunk) (js "--") = true ->
  sqlStatements chunk = [].
Proof.
  intros Hsep Hc. unfold sqlStatements. rewrite (split_one _ _ Hsep).
  cbn [map List.filter]. rewrite Hc, andb_false_r. reflexivity.
Qed.

(** X24. A piece of the text between two semicolons that starts, after
    white space, with a comment line is dropped whole, together with the
    SQL that follows the comment up to the next semicolon. *)
Theorem commented_chunk_dropped (before chunk after : list N) :
  semicolon ∉ chunk ->
  startsWith (trim chunk) (js "--") = true ->
  sqlStatements (before ++ semicolon :: chunk ++ semicolon :: after)
  = sqlStatements before ++ sqlStatements after.
Proof.
  intros Hsep Hc.
  rewrite !sqlStatements_app, (sqlStatements_comment chunk Hsep Hc).
  reflexivity.
Qed.

Lemma commented_chunk_dropped_witness :
  sqlStatements
    (js "SELECT 1" ++ semicolon
     :: ([10%N] ++ js "-- users" ++ [10%N] ++ js "CREATE TABLE t (id INT)")
     ++ semicolon :: js " SELECT 2")
  = [js "SELECT 1"; js "SELECT 2"].
Proof.
  rewrite (commented_chunk_dropped (js "SELECT 1")
             ([10%N] ++ js "-- users" ++ [10%N]
              ++ js "CREATE TABLE t (id INT)") (js " SELECT 2")).
  - reflexivity.
  - vm_compute. intros H.
    repeat (apply elem_of_cons in H as [H|H]; [discriminate H|]).
    inversion H.
  - reflexivity.
Defined.

Section Network_facts.

Context {world : Type}.
Variable fetch : list N -> world -> fetch_result * world.

Lemma setupDatabase_loop_counts statements completed failed w :
  let rs := replies fetch statements w in
  exists w',
    setupDatabase_loop fetch statements completed failed w
    = ((completed + length (List.filter is_ok rs))%nat,
       (failed + length (List.filter (fun r => negb (is_ok r)) rs))%nat,
       w').
Proof.
  revert completed failed w.
  induction statements as [|sql rest IH]; intros completed failed w.
  - exists w. cbn. rewrite !Nat.add_0_r. reflexivity.
  - cbn [setupDatabase_loop replies]. unfold executeSql.
    destruct (fetch sql w) as [r w1].
    destruct r as [[] status body | message]; [| destruct body |];
      cbn [success is_ok negb List.filter length];
      [destruct (IH (S completed) failed w1) as (w' & ->)
      | destruct (IH completed (S failed) w1) as (w' & ->) ..];
      exists w';
      (apply (f_equal2 pair); [apply (f_equal2 pair)|reflexivity]); lia.
Qed.

Lemma executeDatabaseSetup_loop_counts statements succeeded failed w :
  let rs := replies fetch statements w in
  exists w',
    executeDatabaseSetup_loop fetch statements succeeded failed w
    = ((succeeded + length (List.filter (fun r => negb (is_thrown r)) rs))%nat,
       (failed + length (List.filter is_thrown rs))%nat,
       w').
Proof.
  revert succeeded failed w.
  induction statements as [|sql rest IH]; intros succeeded failed w.
  - exists w. cbn. rewrite !Nat.add_0_r. reflexivity.
  - cbn [executeDatabaseSetup_loop replies].
    destruct (fetch sql w) as [r w1].
    destruct r as [[] status body | message];
      cbn [is_thrown negb List.filter length];
      [destruct (IH (S succeeded) failed w1) as (w' & ->) ..
      | destruct (IH succeeded (S failed) w1) as (w' & ->)];
      exists w';
      (apply (f_equal2 pair); [apply (f_equal2 pair)|reflexivity]); lia.
Qed.

Lemma length_replies statements w :
  length (replies fetch statements w) = length statements.
Proof.
  revert w. induction statements as [|sql rest IH]; intros w; cbn;
    [reflexivity|].
  destruct (fetch sql w) as [r w1]. cbn. rewrite IH. reflexivity.
Qed.

Lemma length_filter_split {A} (f : A -> bool) (l : list A) :
  (length (List.filter f l) + length (List.filter (fun x => negb (f x)) l)
   = length l)%nat.
Proof. induction l as [|x l IH]; cbn; [|destruct (f x); cbn]; lia. Qed.

Lemma length_filter_zero {A} (f : A -> bool) (l : list A) :
  length (List.filter f l) = 0%nat <-> forallb (fun x => negb (f x)) l = true.
Proof.
  induction l as [|x l IH]; cbn; [tauto|].
  destruct (f x); cbn; [|exact IH]. split; discriminate.
Qed.

Lemma length_filter_negb_zero {A} (f : A -> bool) (l : list A) :
  length (List.filter (fun x => negb (f x)) l) = 0%nat
  <-> forallb f l = true.
Proof.
  induction l as [|x l IH]; cbn; [tauto|].
  destruct (f x); cbn; [exact IH|]. split; discriminate.
Qed.

(** X25. [setupDatabase] counts as completed the statements answered with
    an ok response and as failed all others, every statement being counted
    once; the exit code is 0 exactly when every statement was answered with
    an ok response, and 1 otherwise. *)
Theorem setupDatabase_exit_code (sqlContent : list N) (w : world) :
  let statements := sqlStatements sqlContent in
  let rs := replies fetch statements w in
  let '(completed, failed, _) := setupDatabase_loop fetch statements 0 0 w in
  completed = length (List.filter is_ok rs)
  /\ (completed + failed = length statements)%nat
  /\ setupDatabase fetch sqlContent w
     = (if forallb is_ok rs then 0 else 1)%nat.
Proof.
  cbn zeta. unfold setupDatabase.
  destruct (setupDatabase_loop_counts (sqlStatements sqlContent) 0 0 w)
    as (w' & ->).
  cbn [Nat.add]. split; [reflexivity|]. split.
  - rewrite length_filter_split. apply length_replies.
  - case_bool_decide as Hz.
    + apply length_filter_negb_zero in Hz. rewrite Hz. reflexivity.
    + destruct (forallb is_ok _) eqn:Hall; [|reflexivity].
      exfalso. apply Hz, length_filter_negb_zero, Hall.
Qed.

(** X26. [executeDatabaseSetup] counts as failed only the statements whose
    request threw, and as executed all others, whether the response was ok
    or not; it reports that the configuration is complete exactly when no
    request threw. *)
Theorem executeDatabaseSetup_counts (statements : list (list N)) (w : world) :
  let rs := replies fetch statements w in
  let '(succeeded, failed, _) :=
    executeDatabaseSetup_loop fetch statements 0 0 w in
  failed = length (List.filter is_thrown rs)
  /\ (succeeded + failed = length statements)%nat
  /\ executeDatabaseSetup fetch statements w
     = forallb (fun r => negb (is_thrown r)) rs.
Proof.
  cbn zeta. unfold executeDatabaseSetup.
  destruct (executeDatabaseSetup_loop_counts statements 0 0 w) as (w' & ->).
  cbn [Nat.add]. split; [reflexivity|]. split.
  - rewrite Nat.add_comm, length_filter_split. apply length_replies.
  - case_bool_decide as Hz.
    + apply length_filter_zero in Hz. symmetry. exact Hz.
    + destruct (forallb _ _) eqn:Hall; [|reflexivity].
      exfalso. apply Hz, length_filter_zero, Hall.
Qed.

(** X27. When the server answers every statement with an error response,
    [executeDatabaseSetup] still counts every statement as executed and
    reports that the configuration is complete, while [setupDatabase]
    counts every statement as failed. *)
Theorem error_responses_count_as_executed
    (statements : list (list N)) (w : world) :
  Forall (fun r => exists status body, r = response false status body)
    (replies fetch statements w) ->
  (exists w', executeDatabaseSetup_loop fetch statements 0 0 w
              = (length statements, 0%nat, w'))
  /\ executeDatabaseSetup fetch statements w = true
  /\ (exists w', setupDatabase_loop fetch statements 0 0 w
                 = (0%nat, length statements, w')).
Proof.
  intros H.
  assert (Hok : List.filter is_ok (replies fetch statements w) = []
                /\ List.filter is_thrown (replies fetch statements w) = []
                /\ List.filter (fun r => negb (is_ok r))
                     (replies fetch statements w)
                   = replies fetch statements w
                /\ List.filter (fun r => negb (is_thrown r))
                     (replies fetch statements w)
                   = replies fetch statements w).
  { induction H as [|r rs (status & body & ->) _ (H1 & H2 & H3 & H4)];
      cbn; [repeat split|].
    rewrite H3, H4. repeat split; assumption. }
  destruct Hok as (H1 & H2 & H3 & H4).
  pose proof (executeDatabaseSetup_counts statements w) as Hc.
  cbn zeta in Hc. unfold executeDatabaseSetup in *.
  destruct (executeDatabaseSetup_loop_counts statements 0 0 w) as (w1 & E1).
  destruct (setupDatabase_loop_counts statements 0 0 w) as (w2 & E2).
  cbn zeta in E1, E2.
  rewrite H2, H4, length_replies in E1. rewrite H1, H3, length_replies in E2.
  cbn in E1, E2. rewrite E1, E2. repeat split; eauto.
Qed.

End Network_facts.

Lemma error_responses_count_as_executed_witness :
  executeDatabaseSetup
    (fun (_ : list N) (w : unit) =>
       (response false 500 (body_text (js "error")), w))
    [js "SELECT 1"; js "SELECT 2"] tt = true.
Proof.
  refine (proj1 (proj2 (error_responses_count_as_executed
    (fun (_ : list N) (w : unit) =>
       (response false 500 (body_text (js "error")), w))
    [js "SELECT 1"; js "SELECT 2"] tt _))).
  repeat constructor; eexists; eexists; reflexivity.
Defined.

(** ** [AIQuiz] *)

Lemma calculateScore_from_correctCount questions idx answers correct :
  calculateScore_from questions idx answers correct
  = match correctCount_from questions idx answers with
    | Some n => Some (correct + n)%nat
    | None => None
    end.
Proof.
  revert idx correct.
  induction answers as [|answer rest IH]; intros idx correct; cbn.
  - f_equal. lia.
  - destruct (questions !! idx) as [q|]; [|reflexivity].
    rewrite IH. destruct (correctCount_from questions (S idx) rest) as [n|];
      [|reflexivity].
    f_equal. case_bool_decide; lia.
Qed.

Lemma correctCount_from_Some questions idx answers :
  (idx + length answers <= length questions)%nat ->
  exists n, correctCount_from questions idx answers = Some n
            /\ (n <= length answers)%nat.
Proof.
  revert idx. induction answers as [|answer rest IH]; intros idx H; cbn.
  - exists 0%nat. split; [reflexivity | lia].
  - cbn in H. destruct (lookup_lt_is_Some_2 questions idx) as (q & ->);
      [lia|].
    destruct (IH (S idx)) as (n & -> & Hn); [lia|].
    eexists. split; [reflexivity|]. case_bool_decide; lia.
Qed.

Lemma correctCount_from_None questions idx answers :
  (idx <= length questions)%nat ->
  (length questions < idx + length answers)%nat ->
  correctCount_from questions idx answers = None.
Proof.
  revert idx. induction answers as [|answer rest IH]; intros idx Hi H; cbn.
  - cbn in H. lia.
  - cbn in H. destruct (questions !! idx) as [q|] eqn:Hq; [|reflexivity].
    apply lookup_lt_Some in Hq. rewrite IH by lia. reflexivity.
Qed.

(** X28. The score shown on the results screen, counted by
    [calculateScore], is the count from which [handleNext] computes the
    coins; both fail, on a question that does not exist, exactly when there
    are more answers than questions, and otherwise give at most the number
    of answers. *)
Theorem calculateScore_is_correctCount
    (questions : list Question) (answers : list nat) :
  calculateScore questions answers = correctCount questions answers
  /\ (correctCount questions answers = None
      <-> (length questions < length answers)%nat)
  /\ (forall n, correctCount questions answers = Some n ->
                (n <= length answers)%nat).
Proof.
  unfold calculateScore, correctCount.
  rewrite calculateScore_from_correctCount. split; [|split].
  - destruct (correctCount_from questions 0 answers); reflexivity.
  - split.
    + intros E.
      destruct (decide (length questions < length answers)%nat) as [|Hl];
        [assumption|].
      destruct (correctCount_from_Some questions 0 answers) as (n & En & _);
        [cbn; lia | congruence].
    + intros H. apply correctCount_from_None; cbn; lia.
  - intros n E.
    destruct (decide (length questions < length answers)%nat) as [Hl|Hl].
    + rewrite correctCount_from_None in E by (cbn; lia). discriminate E.
    + destruct (correctCount_from_Some questions 0 answers) as (m & Em & Hm);
        [cbn; lia|].
      congruence.
Qed.

Lemma render_quiz_screen s :
  render s = quiz_screen -> questions s <> [].
Proof.
  unfold render. destruct (showResults s && _); [discriminate|].
  case_bool_decide as H; [discriminate|]. intros _ E. apply H.
  rewrite E. reflexivity.
Qed.

Lemma enabled_quiz_screen s e :
  enabled s e = true ->
  match e with
  | select_answer _ | submit_answer | next => render s = quiz_screen
  | _ => True
  end.
Proof. unfold enabled. destruct e, (render s); try discriminate; auto. Qed.

Lemma in_step_handle s e :
  in_step s -> enabled s e = true -> in_step (handle e s).1.
Proof.
  intros Hin He. pose proof Hin as (H1 & H2 & H3).
  pose proof (enabled_quiz_screen s e He) as Hr.
  destruct e as [generated|index| | | |]; cbn [handle fst].
  - unfold in_step. cbn. repeat split; try lia.
    intros Hne. destruct generated; [congruence | cbn; lia].
  - unfold handleSelectAnswer. destruct (submitted s) eqn:Hs; [exact Hin|].
    unfold in_step. cbn. repeat split; assumption.
  - apply render_quiz_screen in Hr. specialize (H3 Hr).
    assert (Hs : submitted s = false).
    { unfold enabled in He. destruct (render s); try discriminate.
      apply negb_true_iff, He. }
    unfold handleSubmitAnswer. destruct (selectedAnswer s); [|exact Hin].
    unfold in_step. cbn. rewrite length_app. rewrite Hs in H1. cbn in *.
    repeat split; try lia.
  - apply render_quiz_screen in Hr. specialize (H3 Hr).
    assert (Hs : submitted s = true).
    { unfold enabled in He. destruct (render s); try discriminate. exact He. }
    unfold handleNext.
    destruct (Z.ltb_spec (Z.of_nat (currentQuestion s))
                (Z.of_nat (length (questions s)) - 1)) as [Hlt|Hge].
    + unfold in_step. cbn. rewrite Hs in H1. cbn in H1.
      repeat split; try lia.
    + destruct (correctCount (questions s) (answers s)); exact Hin.
  - exact Hin.
  - unfold in_step. cbn. repeat split; try lia. congruence.
Qed.

Lemma reachable_in_step s : reachable s -> in_step s.
Proof.
  induction 1 as [|s e _ IH He].
  - unfold in_step. cbn. repeat split; try lia. congruence.
  - apply in_step_handle; assumption.
Qed.

Lemma reachable_quiz_at_end : reachable quiz_at_end.
Proof.
  apply (reachable_event
           {| questions := two_questions; currentQuestion := 1;
              selectedAnswer := Some 1%nat; submitted := false;
              answers := [1%nat]; showResults := false; awaiting := 0 |}
           submit_answer); [|reflexivity].
  apply (reachable_event
           {| questions := two_questions; currentQuestion := 1;
              selectedAnswer := None; submitted := false;
              answers := [1%nat]; showResults := false; awaiting := 0 |}
           (select_answer 1)); [|reflexivity].
  apply (reachable_event
           {| questions := two_questions; currentQuestion := 0;
              selectedAnswer := Some 1%nat; submitted := true;
              answers := [1%nat]; showResults := false; awaiting := 0 |}
           next); [|reflexivity].
  apply (reachable_event
           {| questions := two_questions; currentQuestion := 0;
              selectedAnswer := Some 1%nat; submitted := false;
              answers := []; showResults := false; awaiting := 0 |}
           submit_answer); [|reflexivity].
  apply (reachable_event
           {| questions := two_questions; currentQuestion := 0;
              selectedAnswer := None; submitted := false;
              answers := []; showResults := false; awaiting := 0 |}
           (select_answer 1)); [|reflexivity].
  apply (reachable_event useState (quiz_generated two_questions));
    [|reflexivity].
  apply reachable_first.
Defined.

(** X29. In every state the page can get into, there is one answer for each
    question gone through (one more once the current answer is submitted),
    never more answers than questions, and on the quiz screen the current
    question exists. *)
Theorem quiz_answers_in_step (s : AIQuiz) :
  reachable s ->
  length (answers s) = (currentQuestion s + Nat.b2n (submitted s))%nat
  /\ (length (answers s) <= length (questions s))%nat
  /\ (render s = quiz_screen ->
      is_Some (questions s !! currentQuestion s)).
Proof.
  intros H. destruct (reachable_in_step s H) as (H1 & H2 & H3).
  repeat split; try assumption.
  intros Hr. apply lookup_lt_is_Some_2, H3, render_quiz_screen, Hr.
Qed.

Lemma quiz_answers_in_step_witness :
  length (answers quiz_at_end)
  = (currentQuestion quiz_at_end + Nat.b2n (submitted quiz_at_end))%nat.
Proof.
  exact (proj1 (quiz_answers_in_step quiz_at_end reachable_quiz_at_end)).
Defined.

Lemma enabled_next_same s s' :
  questions s' = questions s ->
  showResults s' = showResults s ->
  submitted s' = submitted s ->
  enabled s' next = enabled s next.
Proof. unfold enabled, render. intros -> -> ->. reflexivity. Qed.

(** X30. When Next is clicked on the last question, every question has its
    answer, [addCoins] is called with 10 coins for each right answer, the
    amount the results screen shows, at most 10 times the number of
    questions; and as the state does not change before [addCoins] returns,
    Next can be clicked again at once and then calls [addCoins] with the
    same amount a second time. *)
Theorem finish_awards_coins (s : AIQuiz) :
  reachable s ->
  enabled s next = true ->
  (currentQuestion s + 1)%nat = length (questions s) ->
  exists score,
    calculateScore (questions s) (answers s) = Some score
    /\ (handleNext s).2 = Some (score * 10)%nat
    /\ (score <= length (questions s))%nat
    /\ length (answers s) = length (questions s)
    /\ enabled (handleNext s).1 next = true
    /\ (handleNext (handleNext s).1).2 = Some (score * 10)%nat.
Proof.
  intros Hreach He Hlast.
  destruct (reachable_in_step s Hreach) as (H1 & H2 & H3).
  assert (Hs : submitted s = true).
  { unfold enabled in He. destruct (render s); try discriminate. exact He. }
  rewrite Hs in H1. cbn in H1.
  destruct (calculateScore_is_correctCount (questions s) (answers s))
    as (Hcalc & Hnone & Hle).
  destruct (correctCount (questions s) (answers s)) as [score|] eqn:Hc.
  - exists score. specialize (Hle score eq_refl).
    assert (Hnext : handleNext s
                    = ({| questions := questions s;
                          currentQuestion := currentQuestion s;
                          selectedAnswer := selectedAnswer s;
                          submitted := submitted s; answers := answers s;
                          showResults := showResults s;
                          awaiting := S (awaiting s) |},
                       Some (score * 10)%nat)).
    { unfold handleNext.
      destruct (Z.ltb_spec (Z.of_nat (currentQuestion s))
                  (Z.of_nat (length (questions s)) - 1)); [lia|].
      rewrite Hc. reflexivity. }
    rewrite Hnext. cbn [fst snd].
    split; [exact Hcalc|]. split; [reflexivity|]. split; [lia|].
    split; [lia|]. split.
    + rewrite <- He. apply enabled_next_same; reflexivity.
    + unfold handleNext. cbn [questions currentQuestion answers].
      destruct (Z.ltb_spec (Z.of_nat (currentQuestion s))
                  (Z.of_nat (length (questions s)) - 1)); [lia|].
      rewrite Hc. reflexivity.
  - exfalso. pose proof (proj1 Hnone eq_refl). lia.
Qed.

Lemma finish_awards_coins_witness :
  (handleNext quiz_at_end).2 = Some 10%nat
  /\ (handleNext (handleNext quiz_at_end).1).2 = Some 10%nat.
Proof.
  destruct (finish_awards_coins quiz_at_end reachable_quiz_at_end
              eq_refl eq_refl) as (score & Hs & H1 & _ & _ & _ & H2).
  injection Hs as <-. split; [exact H1 | exact H2].
Defined.
